(** * LegalBench-RAG evaluation notebook: a shallow embedding

    The notebook [RAG_Evaluation_LegalBench-RAG.ipynb] is a linear pipeline:
    load the corpus and the benchmark, chunk, index, sample, retrieve and
    generate, checkpoint to JSON, reformat for RAGChecker, score with RAGAs
    and write the metrics to a text file.  Each cell is embedded below as a
    function over explicit state: the file system is a record of finite
    maps, the Python exceptions that abort a cell ([KeyError], [IndexError],
    [FileNotFoundError], [TypeError]) are [None] in the option monad, and the
    external services (vector search, the chat model, the RAGAs scorers, the
    random generator) are section variables threaded through a world state.

    Python [str] is [string], Python [int] is [Z], Python [float] is the
    IEEE-754 binary64 [float] of the kernel, a [dict] used as a map is a
    [gmap], a [dict] used as a struct is a record. *)

From Stdlib Require Import ZArith Ascii Floats Uint63.
From stdpp Require Import base option list gmap strings pretty.

Local Set Warnings "-register-all,-abstract-large-number".
Local Open Scope Z_scope.

(** ** Python strings *)

Module PyStr.

(** The line feed, Python's ["\n"]. *)
Definition LF : string := String (Ascii.ascii_of_nat 10) EmptyString.

(** [s.endswith(suffix)] *)
Definition endswith (s suffix : string) : bool :=
  let n := String.length s in
  let m := String.length suffix in
  (m <=? n)%nat && String.eqb (String.substring (n - m) m s) suffix.

(** [str.isspace] on one character, for the code points below 256:
    tab to carriage return, the four separators 0x1c..0x1f, space,
    NEL (0x85) and the no-break space (0xa0). *)
Definition isspace (c : ascii) : bool :=
  let n := Ascii.nat_of_ascii c in
  ((9 <=? n) && (n <=? 13) || (28 <=? n) && (n <=? 32)
   || (n =? 133) || (n =? 160))%nat.

(** [s.lstrip()], [s.rstrip()] and [s.strip()] *)
Fixpoint lstrip (s : string) : string :=
  match s with
  | String c s' => if isspace c then lstrip s' else s
  | EmptyString => EmptyString
  end.

Fixpoint rstrip (s : string) : string :=
  match s with
  | String c s' =>
      match rstrip s' with
      | EmptyString => if isspace c then EmptyString else String c EmptyString
      | t => String c t
      end
  | EmptyString => EmptyString
  end.

Definition strip (s : string) : string := rstrip (lstrip s).

(** [sub in s] *)
Fixpoint contains (sub s : string) : bool :=
  String.prefix sub s ||
  match s with
  | String _ s' => contains sub s'
  | EmptyString => false
  end.

(** [s.find(sub, start)], with Python's [-1] for a miss. *)
Definition find (s sub : string) (start : Z) : Z :=
  match String.index (Z.to_nat start) sub s with
  | Some i => Z.of_nat i
  | None => -1
  end.

(** [list(s)]: the characters of [s], each a string of length one. *)
Fixpoint chars (s : string) : list string :=
  match s with
  | String c s' => String c EmptyString :: chars s'
  | EmptyString => []
  end.

(** [sep.join(parts)] *)
Definition join (sep : string) (parts : list string) : string :=
  String.concat sep parts.

End PyStr.

(** ** JSON values

    What [json.load] returns and [json.dump] accepts: objects keep their
    members in file order. *)

Inductive json : Type :=
| JNull
| JBool (b : bool)
| JInt (z : Z)
| JStr (s : string)
| JArr (items : list json)
| JObj (members : list (string * json)).

Module Json.

(** [obj[key]] on a loaded object: [json.load] keeps the last of several
    members with one name; a missing key is a [KeyError]. *)
Fixpoint member (key : string) (members : list (string * json)) : option json :=
  match members with
  | [] => None
  | (k, v) :: rest =>
      match member key rest with
      | Some v' => Some v'
      | None => if String.eqb k key then Some v else None
      end
  end.

Definition get (key : string) (j : json) : option json :=
  match j with
  | JObj members => member key members
  | _ => None
  end.

Definition as_str (j : json) : option string :=
  match j with JStr s => Some s | _ => None end.

Definition as_int (j : json) : option Z :=
  match j with JInt z => Some z | _ => None end.

Definition as_list (j : json) : option (list json) :=
  match j with JArr l => Some l | _ => None end.

(** [obj[key]] read as a string, an integer or a list; any other kind of
    value fails where the cell first uses it as one. *)
Definition get_str (key : string) (j : json) : option string :=
  v ← get key j; as_str v.

Definition get_int (key : string) (j : json) : option Z :=
  v ← get key j; as_int v.

Definition get_list (key : string) (j : json) : option (list json) :=
  v ← get key j; as_list v.

End Json.

(** ** The file system the notebook reads and writes *)

Record FileSystem : Type := {
  fs_listdir : gmap string (list string);  (* os.listdir, per directory *)
  fs_text : gmap string string;            (* text files, by path *)
  fs_json : gmap string json               (* JSON files, by path, parsed *)
}.

(** ** Data model *)

(** A metadata value: file names and data set paths are strings, the
    splitter's [start_index] is an integer. *)
Inductive meta_value : Type :=
| MStr (s : string)
| MInt (z : Z).

Global Instance meta_value_eq_dec : EqDecision meta_value.
Proof. solve_decision. Defined.

(** LangChain's [Document]: text plus a metadata dictionary. *)
Record Document : Type := {
  page_content : string;
  metadata : gmap string meta_value
}.

(** An entry of [legalbench_rag_qa]. *)
Record QA : Type := {
  qa_query_id : Z;
  qa_query : string;
  qa_answers : list string
}.

(** ** Cell 2: the corpus loader *)

Module Corpus.

Definition directories : list string :=
  ["./Datasets/contractnli/"; "./Datasets/cuad/"; "./Datasets/maud/";
   "./Datasets/privacy_qa/"].

(** The inner loop: one directory's entries, appended to [docs]. *)
Fixpoint load_folder (fs : FileSystem) (folder : string) (entries : list string)
    (docs : list Document) : option (list Document) :=
  match entries with
  | [] => Some docs
  | file :: rest =>
      if PyStr.endswith file ".txt" then
        let filepath := folder +:+ file in
        content ← fs_text fs !! filepath;
        let doc := {| page_content := content;
                      metadata := {[ "source_dataset" := MStr folder;
                                     "filename" := MStr file ]} |} in
        load_folder fs folder rest (docs ++ [doc])
      else load_folder fs folder rest docs
  end.

(** The outer loop over the directories. *)
Fixpoint load_folders (fs : FileSystem) (dirs : list string)
    (docs : list Document) : option (list Document) :=
  match dirs with
  | [] => Some docs
  | folder :: rest =>
      entries ← fs_listdir fs !! folder;
      docs' ← load_folder fs folder entries docs;
      load_folders fs rest docs'
  end.

Definition legalbench_rag_retrieval_docs (fs : FileSystem)
    (dirs : list string) : option (list Document) :=
  load_folders fs dirs [].

(** The text files of a directory listing, as (directory, name) pairs in
    listing order. *)
Definition text_files (folder : string) (entries : list string)
    : list (string * string) :=
  (λ file, (folder, file)) <$> filter (λ file, PyStr.endswith file ".txt" = true) entries.

(** The text files of all the directories, in loading order. *)
Definition corpus_text_files (fs : FileSystem) (dirs : list string)
    : list (string * string) :=
  dirs ≫= λ folder, text_files folder (default [] (fs_listdir fs !! folder)).

(** A directory can be loaded: it can be listed, and each of its text
    files can be opened and read at the path the loader builds. *)
Definition loadable (fs : FileSystem) (folder : string) : Prop :=
  ∃ entries, fs_listdir fs !! folder = Some entries
    ∧ Forall (λ file, PyStr.endswith file ".txt" = true →
                      is_Some (fs_text fs !! (folder +:+ file))) entries.

(** [doc] is the document of the text file [file] of [folder]. *)
Definition document_of (fs : FileSystem) (doc : Document) (entry : string * string) : Prop :=
  metadata doc = {[ "source_dataset" := MStr entry.1; "filename" := MStr entry.2 ]}
  ∧ fs_text fs !! (entry.1 +:+ entry.2) = Some (page_content doc).

End Corpus.

(** ** Cell 3: the benchmark loader *)

Module Benchmark.

Definition benchmarks : list string :=
  ["./Datasets/benchmarks/contractnli.json"; "./Datasets/benchmarks/cuad.json";
   "./Datasets/benchmarks/maud.json"; "./Datasets/benchmarks/privacy_qa.json"].

(** [snippet["answer"] + "\nSource: " + snippet["file_path"]] *)
Definition answer_of_snippet (snippet : json) : option string :=
  answer ← Json.get_str "answer" snippet;
  file_path ← Json.get_str "file_path" snippet;
  Some (answer +:+ PyStr.LF +:+ "Source: " +:+ file_path).

(** The loop over [data["tests"]], threading [query_id]. *)
Fixpoint load_tests (tests : list json) (qa : list QA) (query_id : Z)
    : option (list QA * Z) :=
  match tests with
  | [] => Some (qa, query_id)
  | example :: rest =>
      query ← Json.get_str "query" example;
      snippets ← Json.get_list "snippets" example;
      answers ← mapM answer_of_snippet snippets;
      load_tests rest
        (qa ++ [{| qa_query_id := query_id; qa_query := query;
                   qa_answers := answers |}])
        (query_id + 1)
  end.

(** The loop over the benchmark files. *)
Fixpoint load_benchmarks (fs : FileSystem) (paths : list string)
    (qa : list QA) (query_id : Z) : option (list QA * Z) :=
  match paths with
  | [] => Some (qa, query_id)
  | benchmark :: rest =>
      data ← fs_json fs !! benchmark;
      tests ← Json.get_list "tests" data;
      '(qa', query_id') ← load_tests tests qa query_id;
      load_benchmarks fs rest qa' query_id'
  end.

Definition legalbench_rag_qa (fs : FileSystem) (paths : list string)
    : option (list QA) :=
  fst <$> load_benchmarks fs paths [] 1.

(** The content of a benchmark file: tests, each a query with its answer
    snippets. *)
Record Snippet : Type := { answer : string; file_path : string }.

Record Test : Type := { test_query : string; snippets : list Snippet }.

(** A JSON value has the shape of a benchmark file with the given tests:
    an object whose [tests] member lists objects with a [query] string and
    a [snippets] list of objects with [answer] and [file_path] strings.
    Further members are allowed. *)
Definition snippet_repr (j : json) (s : Snippet) : Prop :=
  Json.get_str "answer" j = Some (answer s)
  ∧ Json.get_str "file_path" j = Some (file_path s).

Definition test_repr (j : json) (t : Test) : Prop :=
  Json.get_str "query" j = Some (test_query t)
  ∧ ∃ items, Json.get_list "snippets" j = Some items
             ∧ Forall2 snippet_repr items (snippets t).

Definition benchmark_repr (data : json) (tests : list Test) : Prop :=
  ∃ items, Json.get_list "tests" data = Some items ∧ Forall2 test_repr items tests.

(** The file at [path] is a benchmark file with the given tests. *)
Definition benchmark_at (fs : FileSystem) (path : string) (tests : list Test) : Prop :=
  ∃ data, fs_json fs !! path = Some data ∧ benchmark_repr data tests.

(** The record of a test under a given identifier. *)
Definition qa_of (id : Z) (t : Test) : QA :=
  {| qa_query_id := id;
     qa_query := test_query t;
     qa_answers := (λ s, answer s +:+ PyStr.LF +:+ "Source: " +:+ file_path s)
                   <$> snippets t |}.

End Benchmark.

(** ** Cell 5: chunking

    The notebook builds
    [RecursiveCharacterTextSplitter(chunk_size=2000, chunk_overlap=500,
    add_start_index=True)] and calls [split_documents].  The class comes
    from LangChain ([langchain_text_splitters]); the functions below follow
    its methods one by one, with the constructor's defaults
    ([separators = ["\n\n", "\n", " ", ""]], [keep_separator = True],
    [strip_whitespace = True], [length_function = len]). *)

Module TextSplitter.

Definition len (s : string) : Z := Z.of_nat (String.length s).

(** [re.split] on a literal, non-empty separator: the pieces between the
    leftmost non-overlapping occurrences.  [skip] counts the characters of
    a matched separator still to pass over, [cur] is the piece being read. *)
Fixpoint split_go (sep s : string) (skip : nat) (cur : string) : list string :=
  match s with
  | EmptyString => [cur]
  | String c s' =>
      match skip with
      | S k => split_go sep s' k cur
      | O =>
          if String.prefix sep s
          then cur :: split_go sep s' (String.length sep - 1) EmptyString
          else split_go sep s' O (cur +:+ String c EmptyString)
      end
  end.

(** [_split_text_with_regex(text, separator, keep_separator=True)]: every
    piece after the first keeps the separator in front of it; empty pieces
    are dropped.  With the empty separator the pieces are the characters. *)
Definition split_text_with_regex (text separator : string) : list string :=
  let splits :=
    if String.eqb separator EmptyString then PyStr.chars text
    else match split_go separator text O EmptyString with
         | [] => []
         | first :: others => first :: ((λ piece, separator +:+ piece) <$> others)
         end in
  filter (λ piece, piece ≠ EmptyString) splits.

Section Merge.

Variables (chunk_size chunk_overlap : Z) (separator : string).

Definition separator_len : Z := len separator.

(** [separator_len if cond else 0] *)
Definition sep_if (cond : bool) : Z := if cond then separator_len else 0.

(** [_join_docs]: join, strip, and [None] for an empty result. *)
Definition join_docs (docs : list string) : option string :=
  let text := PyStr.strip (PyStr.join separator docs) in
  if String.eqb text EmptyString then None else Some text.

(** The [while] loop of [_merge_splits]: drop splits from the front of
    [current_doc] until the overlap fits.  [current_doc[0]] on an empty
    list is an [IndexError]. *)
Fixpoint shrink (_len : Z) (current_doc : list string) (total : Z)
    : option (list string * Z) :=
  if (total >? chunk_overlap)
     || ((total + _len + sep_if (0 <? length current_doc)%nat >? chunk_size)
         && (total >? 0))
  then match current_doc with
       | [] => None
       | first :: rest =>
           shrink _len rest
             (total - (len first + sep_if (1 <? length current_doc)%nat))
       end
  else Some (current_doc, total).

(** The [for] loop of [_merge_splits] and the final join. *)
Fixpoint merge_loop (splits docs current_doc : list string) (total : Z)
    : option (list string) :=
  match splits with
  | [] => Some (docs ++ option_list (join_docs current_doc))
  | d :: rest =>
      let _len := len d in
      '(docs, current_doc, total) ←
        (if (total + _len + sep_if (0 <? length current_doc)%nat >? chunk_size)
            && (0 <? length current_doc)%nat
         then
           let docs := docs ++ option_list (join_docs current_doc) in
           '(current_doc, total) ← shrink _len current_doc total;
           Some (docs, current_doc, total)
         else Some (docs, current_doc, total));
      let current_doc := current_doc ++ [d] in
      merge_loop rest docs current_doc
        (total + _len + sep_if (1 <? length current_doc)%nat)
  end.

Definition merge_splits (splits : list string) : option (list string) :=
  merge_loop splits [] [] 0.

End Merge.

Section Recursive.

Variables (chunk_size chunk_overlap : Z).

(** The loop of [_split_text] over the pieces.  [recurse] is the call on
    the remaining separators, [None] when there are none left.  With
    [keep_separator] the pieces are merged with the empty separator. *)
Fixpoint split_loop (recurse : option (string → option (list string)))
    (splits final_chunks good_splits : list string) : option (list string) :=
  match splits with
  | [] =>
      match good_splits with
      | [] => Some final_chunks
      | _ =>
          merged ← merge_splits chunk_size chunk_overlap EmptyString good_splits;
          Some (final_chunks ++ merged)
      end
  | s :: rest =>
      if len s <? chunk_size
      then split_loop recurse rest final_chunks (good_splits ++ [s])
      else
        final_chunks ←
          match good_splits with
          | [] => Some final_chunks
          | _ =>
              merged ← merge_splits chunk_size chunk_overlap EmptyString good_splits;
              Some (final_chunks ++ merged)
          end;
        match recurse with
        | None => split_loop recurse rest (final_chunks ++ [s]) []
        | Some split_rest =>
            other_info ← split_rest s;
            split_loop recurse rest (final_chunks ++ other_info) []
        end
  end.

(** [_split_text(text, separators)].  The scan for the first separator
    that occurs in [text] is the recursion on [separators]: an absent
    separator that is not the last one hands over to the rest of the list,
    the last one is used even when absent, and the empty separator always
    matches.  [separators[-1]] on an empty list is an [IndexError]. *)
Fixpoint _split_text (separators : list string) (text : string)
    : option (list string) :=
  match separators with
  | [] => None
  | _s :: new_separators =>
      if String.eqb _s EmptyString then
        split_loop None (split_text_with_regex text EmptyString) [] []
      else if PyStr.contains _s text then
        split_loop
          (match new_separators with
           | [] => None
           | _ => Some (_split_text new_separators)
           end)
          (split_text_with_regex text _s) [] []
      else
        match new_separators with
        | [] => split_loop None (split_text_with_regex text _s) [] []
        | _ => _split_text new_separators text
        end
  end.

Definition separators : list string :=
  [PyStr.LF +:+ PyStr.LF; PyStr.LF; " "; ""].

Definition split_text (text : string) : option (list string) :=
  _split_text separators text.

(** The inner loop of [create_documents] with [add_start_index] (as in
    langchain-text-splitters 0.2 and 0.3): every chunk gets a copy of the
    document's metadata and the position at which it is found from
    [index + previous_chunk_len - chunk_overlap] on. *)
Fixpoint index_chunks (text : string) (meta : gmap string meta_value)
    (chunks : list string) (index previous_chunk_len : Z) : list Document :=
  match chunks with
  | [] => []
  | chunk :: rest =>
      let offset := index + previous_chunk_len - chunk_overlap in
      let index := PyStr.find text chunk (Z.max 0 offset) in
      {| page_content := chunk;
         metadata := <["start_index" := MInt index]> meta |}
      :: index_chunks text meta rest index (len chunk)
  end.

(** [split_documents]: the documents in order, each one's chunks in order. *)
Fixpoint split_documents (documents : list Document) : option (list Document) :=
  match documents with
  | [] => Some []
  | doc :: rest =>
      chunks ← split_text (page_content doc);
      others ← split_documents rest;
      Some (index_chunks (page_content doc) (metadata doc) chunks 0 0 ++ others)
  end.

End Recursive.

(** The notebook's splitter and its chunks. *)
Definition text_splitter : list Document → option (list Document) :=
  split_documents 2000 500.

Definition legalbench_rag_chunks (docs : list Document) : option (list Document) :=
  text_splitter docs.

(** The start offsets recorded in the chunks' metadata. *)
Definition start_indices (chunks : list Document) : list (option meta_value) :=
  (λ chunk, metadata chunk !! "start_index") <$> chunks.

(** Whether a text has a whitespace character: only such a text has
    anything for the splitter's separators or its [strip] to act on. *)
Fixpoint has_space (s : string) : bool :=
  match s with
  | String c s' => PyStr.isspace c || has_space s'
  | EmptyString => false
  end.

(** A split that is one character, and not a whitespace one. *)
Definition plain_char (d : string) : Prop :=
  ∃ c, d = String c EmptyString ∧ PyStr.isspace c = false.

(** The number of windows of 2000 characters, each starting 1500 after
    the one before, that it takes to reach the end of [L] > 0 characters:
    one up to 2000 characters, and the ceiling of [(L - 500) / 1500] from
    there on. *)
Definition window_count (L : nat) : nat :=
  if (L =? 0)%nat then 0%nat
  else if (L <=? 2000)%nat then 1%nat
  else ((L - 500 + 1499) / 1500)%nat.

(** The [k]-th such window of a text, and the first [n] of them. *)
Definition window (text : string) (k : nat) : string :=
  String.substring (1500 * k) 2000 text.

Definition windows (text : string) (n : nat) : list string :=
  window text <$> seq 0 n.

(** [c * n] in Python: the character [c], [n] times. *)
Fixpoint repeat_char (c : ascii) (n : nat) : string :=
  match n with
  | O => EmptyString
  | S n' => String c (repeat_char c n')
  end.

(** A document with no metadata. *)
Definition plain_document (text : string) : Document :=
  {| page_content := text; metadata := ∅ |}.

(** The chunk count the specification gives for [L] characters: the
    ceiling of [(L - 500) / 1500], and one below 2000 characters. *)
Definition claimed_count (L : nat) : nat :=
  if (L <? 2000)%nat then 1%nat else ((L - 500 + 1499) / 1500)%nat.

(** Three blocks of letters with a space between them: 1001 times [a],
    1000 times [b], 1000 times [c]; 3003 characters in all. *)
Definition three_blocks : string :=
  repeat_char (ascii_of_nat 97) 1001 +:+ " "
  +:+ repeat_char (ascii_of_nat 98) 1000 +:+ " "
  +:+ repeat_char (ascii_of_nat 99) 1000.

(** What the notebook's own run printed: 698 documents, 105009.388252149
    characters on average (73296553 in all), 58387 chunks. *)
Definition recorded_documents : nat := 698.
Definition recorded_characters : Z := 73296553.
Definition recorded_chunks : Z := 58387.

End TextSplitter.

(** ** Cell 7: filling the vector store

    [SQLiteVec.add_texts(texts, metadatas=None, **kwargs)] is LangChain's;
    the cell that calls it is the notebook's. *)

Module VectorStore.

(** A value passed by keyword. *)
Inductive kwvalue : Type :=
| KTexts (texts : list string)
| KMetadata (metadatas : list (gmap string meta_value)).

Definition as_texts (v : kwvalue) : option (list string) :=
  match v with KTexts l => Some l | _ => None end.

Definition as_metadata (v : kwvalue) : option (list (gmap string meta_value)) :=
  match v with KMetadata l => Some l | _ => None end.

Section Store.

Variable Embedding : Type.
Variable embed : string → Embedding.

(** A row of the store's table. *)
Record Row : Type := {
  rowid : Z;
  text : string;
  row_metadata : gmap string meta_value;
  text_embedding : Embedding
}.

Definition max_rowid (table : list Row) : Z :=
  foldr (λ row acc, Z.max (rowid row) acc) 0 table.

(** The rows [executemany] inserts, numbered from [next] on. *)
Fixpoint insert_rows (next : Z)
    (data : list (string * gmap string meta_value * Embedding)) : list Row :=
  match data with
  | [] => []
  | (t, m, e) :: rest =>
      {| rowid := next; text := t; row_metadata := m; text_embedding := e |}
      :: insert_rows (next + 1) rest
  end.

(** Modelled from the spec: the vector store's batched upsert (LangChain's
    [SQLiteVec.add_texts], which is not part of the repository).  It stores
    (text, embedding, metadata) triples, each under an identifier generated
    at insertion.  Python binds the call's keywords to the parameters
    [texts] and [metadatas]; any other keyword lands in [**kwargs] and is
    not read, and an absent [metadatas] stands for one empty dictionary per
    text. *)
Definition add_texts (keywords : gmap string kwvalue) (table : list Row)
    : option (list Row) :=
  texts ← keywords !! "texts" ≫= as_texts;
  let metadatas :=
    match keywords !! "metadatas" ≫= as_metadata with
    | None | Some [] => (λ _, ∅) <$> texts
    | Some metadatas => metadatas
    end in
  let embeds := embed <$> texts in
  let data_input := zip (zip texts metadatas) embeds in
  Some (table ++ insert_rows (max_rowid table + 1) data_input).

(** [range(0, stop, step)] *)
Definition range_step (stop step : nat) : list nat :=
  (λ k, k * step)%nat <$> seq 0 ((stop + step - 1) / step)%nat.

Definition batch_size : nat := 1000.

(** The loop over the batches.  The keyword for the metadata is spelled
    [metdata] in the cell. *)
Fixpoint add_batches (chunks : list Document) (starts : list nat)
    (table : list Row) : option (list Row) :=
  match starts with
  | [] => Some table
  | i :: rest =>
      let batch := take batch_size (drop i chunks) in
      let batch_texts := page_content <$> batch in
      let batch_metadata := metadata <$> batch in
      table ← add_texts {[ "texts" := KTexts batch_texts;
                           "metdata" := KMetadata batch_metadata ]} table;
      add_batches chunks rest table
  end.

(** The cell: a fresh table, then every batch.  The cell also draws one
    [uuid4] per chunk into [uuids], a list no later line reads. *)
Definition legalbench_rag_vector_store (chunks : list Document)
    : option (list Row) :=
  add_batches chunks (range_step (length chunks) batch_size) [].

(** The rows a call stores for [texts] when no metadata reaches the
    parameter [metadatas]. *)
Definition bare_rows (next : Z) (texts : list string) : list Row :=
  insert_rows next (zip (zip texts ((λ _, ∅) <$> texts)) (embed <$> texts)).

End Store.

(** A chunk as the splitter leaves it, with all three metadata keys. *)
Definition traced_chunk : Document :=
  {| page_content := "WHEREAS the parties agree";
     metadata := {[ "source_dataset" := MStr "./Datasets/cuad/";
                    "filename" := MStr "a.txt";
                    "start_index" := MInt 0 ]} |}.

End VectorStore.

(** ** Cell 8: sampling the queries *)

Module Sampling.

Section Random.

(** The state of Python's global generator.  [random.seed(a)] replaces it
    with the state derived from [a]; [random.sample(range(n), k)] reads and
    advances it, and is a [ValueError] when [k] exceeds [n]. *)
Variable RandomState : Type.
Variable seed : Z → RandomState.
Variable sample : RandomState → nat → nat → option (list nat * RandomState).

(** The cell, from the generator state [rng] it is started in: the
    sampled indices, the sampled records and the generator state left
    behind.  [legalbench_rag_qa[index]] out of range is an [IndexError]. *)
Definition sampling_cell (rng : RandomState) (legalbench_rag_qa : list QA)
    : option (list nat * list QA * RandomState) :=
  let rng := seed 100 in
  '(sampled_indices, rng) ← sample rng 6889 100;
  legalbench_rag_subset ← mapM (λ index, legalbench_rag_qa !! index) sampled_indices;
  Some (sampled_indices, legalbench_rag_subset, rng).

Definition sampled_indices (rng : RandomState) (qa : list QA) : option (list nat) :=
  (λ r, r.1.1) <$> sampling_cell rng qa.

Definition legalbench_rag_subset (rng : RandomState) (qa : list QA)
    : option (list QA) :=
  (λ r, r.1.2) <$> sampling_cell rng qa.

End Random.

(** [available_indices]: the indices of [range(6889)] that were not
    sampled, kept for a later framework. *)
Definition available_indices (sampled_indices : list nat) : gset nat :=
  list_to_set (seq 0 6889) ∖ list_to_set sampled_indices.

(** The records at the given indices, as the cell's last loop collects
    them. *)
Definition subset_at (qa : list QA) (indices : list nat) : option (list QA) :=
  mapM (λ index, qa !! index) indices.

End Sampling.

(** ** Cell 9: retrieval and generation *)

(** A result record; [Chunk] is [Document] in memory and the chunk's text
    once the record has been through the checkpoint. *)
Record ResultRecord (Chunk : Type) : Type := {
  query_id : Z;
  query : string;
  ground_truth_answer : list string;
  generated_answer : string;
  retrieved_chunks : list Chunk
}.
Arguments query_id {Chunk} _.
Arguments query {Chunk} _.
Arguments ground_truth_answer {Chunk} _.
Arguments generated_answer {Chunk} _.
Arguments retrieved_chunks {Chunk} _.

Module Pipeline.

(** A result record carries a benchmark record: same identifier, same
    query, same ground-truth answers. *)
Definition carries {Chunk : Type} (res : ResultRecord Chunk) (qa : QA) : Prop :=
  query_id res = qa_query_id qa
  ∧ query res = qa_query qa
  ∧ ground_truth_answer res = qa_answers qa.

Section Services.

(** The vector store's search and the chat model, as state transformers
    on whatever the outside world is. *)
Variable World : Type.
Variable similarity_search : string → nat → World → list Document * World.
Variable invoke : string → World → string * World.

(** [retrieved_context]: every chunk's text followed by a blank line. *)
Definition retrieved_context (chunks : list Document) : string :=
  fold_left (λ acc context, acc +:+ page_content context +:+ PyStr.LF +:+ PyStr.LF)
    chunks "".

(** The prompt template with both fields filled in. *)
Definition format_prompt (question context : string) : string :=
  "Answer the following question:" +:+ PyStr.LF
  +:+ PyStr.LF +:+ PyStr.LF +:+ PyStr.LF
  +:+ question +:+ PyStr.LF
  +:+ PyStr.LF +:+ PyStr.LF +:+ PyStr.LF
  +:+ PyStr.LF
  +:+ "Using the following list of context passages:" +:+ PyStr.LF
  +:+ PyStr.LF +:+ PyStr.LF +:+ PyStr.LF
  +:+ context +:+ PyStr.LF
  +:+ PyStr.LF +:+ PyStr.LF.

(** The loop over the sampled records. *)
Fixpoint rag_loop (subset : list QA) (results : list (ResultRecord Document))
    (w : World) : list (ResultRecord Document) * World :=
  match subset with
  | [] => (results, w)
  | qa :: rest =>
      let '(chunks, w) := similarity_search (qa_query qa) 10 w in
      let prompt_message := format_prompt (qa_query qa) (retrieved_context chunks) in
      let '(content, w) := invoke prompt_message w in
      let result := {| query_id := qa_query_id qa;
                       query := qa_query qa;
                       ground_truth_answer := qa_answers qa;
                       generated_answer := content;
                       retrieved_chunks := chunks |} in
      rag_loop rest (results ++ [result]) w
  end.

Definition results (subset : list QA) (w : World)
    : list (ResultRecord Document) * World :=
  rag_loop subset [] w.

End Services.

(** Services that find nothing and always give the same answer, in a
    world without state. *)
Definition no_search (_ : string) (_ : nat) (w : unit) : list Document * unit := ([], w).

Definition fixed_answer (_ : string) (w : unit) : string * unit := ("answer", w).

End Pipeline.

(** ** Cells 10 and 11: the JSON checkpoint *)

Module Checkpoint.

Definition results_path : string := "./Output_Files/legalbench_rag_results.json".

(** [res.copy()] with [retrieved_chunks] replaced by the chunks' texts,
    each to be written as [{"page_content": text}]. *)
Definition serializable_res (res : ResultRecord Document) : ResultRecord string :=
  {| query_id := query_id res;
     query := query res;
     ground_truth_answer := ground_truth_answer res;
     generated_answer := generated_answer res;
     retrieved_chunks := page_content <$> retrieved_chunks res |}.

Definition serializable_results (results : list (ResultRecord Document))
    : list (ResultRecord string) :=
  serializable_res <$> results.

(** What [json.dump] writes for one record and for the list. *)
Definition dump_res (res : ResultRecord string) : json :=
  JObj [("query_id", JInt (query_id res));
        ("query", JStr (query res));
        ("ground_truth_answer", JArr (JStr <$> ground_truth_answer res));
        ("generated_answer", JStr (generated_answer res));
        ("retrieved_chunks",
         JArr ((λ t, JObj [("page_content", JStr t)]) <$> retrieved_chunks res))].

Definition dump (results : list (ResultRecord string)) : json :=
  JArr (dump_res <$> results).

(** Cell 10: write the checkpoint file. *)
Definition save_results (results : list (ResultRecord Document))
    (fs : FileSystem) : FileSystem :=
  {| fs_listdir := fs_listdir fs;
     fs_text := fs_text fs;
     fs_json := <[results_path := dump (serializable_results results)]> (fs_json fs) |}.

(** One loaded record, through the keys the later cells read. *)
Definition load_res (j : json) : option (ResultRecord string) :=
  qid ← Json.get_int "query_id" j;
  q ← Json.get_str "query" j;
  gt_items ← Json.get_list "ground_truth_answer" j;
  gt ← mapM Json.as_str gt_items;
  ga ← Json.get_str "generated_answer" j;
  chunk_items ← Json.get_list "retrieved_chunks" j;
  chunks ← mapM (Json.get_str "page_content") chunk_items;
  Some {| query_id := qid; query := q; ground_truth_answer := gt;
          generated_answer := ga; retrieved_chunks := chunks |}.

(** Cell 11: read the checkpoint file back. *)
Definition json_results (fs : FileSystem) : option (list (ResultRecord string)) :=
  data ← fs_json fs !! results_path;
  items ← Json.as_list data;
  mapM load_res items.

End Checkpoint.

(** ** Cell 12: the RAGChecker format *)

Module Formatter.

Record Context : Type := { ctx_text : string }.

Record CheckerResult : Type := {
  cr_query_id : string;
  cr_query : string;
  gt_answer : string;
  response : string;
  retrieved_context : list Context
}.

(** The inner loop: one [{"text": ...}] per retrieved chunk. *)
Definition contexts_of (chunks : list string) : list Context :=
  fold_left (λ acc chunk, acc ++ [{| ctx_text := chunk |}]) chunks [].

(** The body of the loop for a record whose first ground-truth answer is
    [first]. *)
Definition formatted_res (res : ResultRecord string) (first : string) : CheckerResult :=
  {| cr_query_id := pretty (query_id res);
     cr_query := query res;
     gt_answer := first;
     response := generated_answer res;
     retrieved_context := contexts_of (retrieved_chunks res) |}.

(** The loop: [len(res["ground_truth_answer"]) > 0] guards the body, which
    reads element [0]. *)
Fixpoint format_loop (json_results : list (ResultRecord string))
    (out : list CheckerResult) : list CheckerResult :=
  match json_results with
  | [] => out
  | res :: rest =>
      match ground_truth_answer res with
      | first :: _ => format_loop rest (out ++ [formatted_res res first])
      | [] => format_loop rest out
      end
  end.

Definition ragchecker_results (json_results : list (ResultRecord string))
    : list CheckerResult :=
  format_loop json_results [].

(** What one pass of the loop appends for a record: nothing when the
    ground-truth list is empty. *)
Definition formatted (res : ResultRecord string) : list CheckerResult :=
  match ground_truth_answer res with
  | first :: _ => [formatted_res res first]
  | [] => []
  end.

End Formatter.

(** ** Cell 16: the RAGAs loop *)

Module Ragas.

Record SingleTurnSample : Type := {
  user_input : string;
  sample_response : string;
  reference : string;
  retrieved_contexts : list string
}.

Inductive scorer : Type := Faithfulness | ResponseRelevancy | LLMContextRecall.

(** [metrics[key] += value]; a missing key is a [KeyError]. *)
Definition iadd (key : string) (value : float) (metrics : gmap string float)
    : option (gmap string float) :=
  old ← metrics !! key;
  Some (<[key := (old + value)%float]> metrics).

Section Scorers.

Variable World : Type.
Variable single_turn_ascore : scorer → SingleTurnSample → World → float * World.

(** The sample built from a record; [ground_truth_answer][0] on an empty
    list is an [IndexError]. *)
Definition sample_of (rag_result : ResultRecord string) : option SingleTurnSample :=
  first ← ground_truth_answer rag_result !! 0%nat;
  Some {| user_input := query rag_result;
          sample_response := generated_answer rag_result;
          reference := first;
          retrieved_contexts := retrieved_chunks rag_result |}.

(** The main evaluation loop. *)
Fixpoint eval_loop (json_results : list (ResultRecord string))
    (metrics : gmap string float) (w : World) : option (gmap string float * World) :=
  match json_results with
  | [] => Some (metrics, w)
  | rag_result :: rest =>
      sample ← sample_of rag_result;
      let '(f, w) := single_turn_ascore Faithfulness sample w in
      metrics ← iadd "faithfulness" f metrics;
      let '(a, w) := single_turn_ascore ResponseRelevancy sample w in
      metrics ← iadd "answer_relevance" a metrics;
      let '(c, w) := single_turn_ascore LLMContextRecall sample w in
      metrics ← iadd "context_relevance" c metrics;
      eval_loop rest metrics w
  end.

Definition initial_metrics : gmap string float :=
  {[ "faithfulness" := 0%float; "answer_relevance" := 0%float;
     "context_relevance" := 0%float ]}.

(** The cell: the loop, then every total divided by 100. *)
Definition metrics (json_results : list (ResultRecord string)) (w : World)
    : option (gmap string float * World) :=
  match eval_loop json_results initial_metrics w with
  | Some (totals, w) => Some ((λ total, (total / 100)%float) <$> totals, w)
  | None => None
  end.

(** The three scores of every record, in the order the loop obtains
    them. *)
Fixpoint instance_scores (json_results : list (ResultRecord string)) (w : World)
    : option (list (float * float * float)) :=
  match json_results with
  | [] => Some []
  | rag_result :: rest =>
      sample ← sample_of rag_result;
      let '(f, w) := single_turn_ascore Faithfulness sample w in
      let '(a, w) := single_turn_ascore ResponseRelevancy sample w in
      let '(c, w) := single_turn_ascore LLMContextRecall sample w in
      scores ← instance_scores rest w;
      Some ((f, a, c) :: scores)
  end.

End Scorers.

(** The accumulator with the given totals under its three keys. *)
Definition metrics_of (f a c : float) : gmap string float :=
  {[ "faithfulness" := f; "answer_relevance" := a; "context_relevance" := c ]}.

(** The per-metric columns of the instance scores. *)
Definition faithfulness_scores (scores : list (float * float * float)) : list float :=
  (λ s, s.1.1) <$> scores.

Definition answer_relevance_scores (scores : list (float * float * float)) : list float :=
  (λ s, s.1.2) <$> scores.

Definition context_relevance_scores (scores : list (float * float * float)) : list float :=
  (λ s, s.2) <$> scores.

(** A scorer that answers 1.0 whatever it is asked, in a world without
    state. *)
Definition constant_scorer (_ : scorer) (_ : SingleTurnSample) (w : unit)
    : float * unit := (1%float, w).

(** The running sum of a list of scores, from the initial [0]. *)
Definition running_sum (scores : list float) : float :=
  fold_left (λ total score, (total + score)%float) scores 0%float.

(** The arithmetic mean as the running sum over the number of scores. *)
Definition mean (scores : list float) : float :=
  (running_sum scores / PrimFloat.of_uint63 (Uint63.of_Z (Z.of_nat (length scores))))%float.

End Ragas.

(** ** Cells 15 and 18: the metrics file *)

Module Output.

Definition framework_results_path : string :=
  "./Output_Files/legalbench_rag_framework_results.txt".

Inductive mode : Type := ModeW | ModeAPlus.

(** [open(path, mode)] followed by one [write] and the close: ["w"]
    truncates or creates the file, ["a+"] creates it when missing and
    writes at its end. *)
Definition write_file (path : string) (m : mode) (data : string)
    (files : gmap string string) : gmap string string :=
  match m with
  | ModeW => <[path := data]> files
  | ModeAPlus => <[path := default "" (files !! path) +:+ data]> files
  end.

(** The text block of each framework. *)
Definition ragchecker_block (rendering : string) : string :=
  "RAGChecker results:" +:+ PyStr.LF +:+ PyStr.LF +:+ rendering.

Definition ragas_block (rendering : string) : string :=
  PyStr.LF +:+ PyStr.LF +:+ "RAGAs results:" +:+ PyStr.LF +:+ PyStr.LF +:+ rendering.

(** Cell 15, with [str(rag_results)] as [rendering]. *)
Definition write_ragchecker (rendering : string) (files : gmap string string)
    : gmap string string :=
  write_file framework_results_path ModeW (ragchecker_block rendering) files.

(** Cell 18, with [str(metrics)] as [rendering]. *)
Definition write_ragas (rendering : string) (files : gmap string string)
    : gmap string string :=
  write_file framework_results_path ModeAPlus (ragas_block rendering) files.

(** A write appends to the metrics file when whatever the file held
    before is still there, in front of what the write added. *)
Definition appends (write : gmap string string → gmap string string) : Prop :=
  ∀ files old, files !! framework_results_path = Some old →
    ∃ added, write files !! framework_results_path = Some (old +:+ added).

End Output.

(** ** Small inputs for the scenarios *)

Module Scenario.

(** The record of the formatter scenario: ground truth ["A"; "B"]. *)
Definition record_A_B : ResultRecord string :=
  {| query_id := 7; query := "q"; ground_truth_answer := ["A"; "B"];
     generated_answer := "g"; retrieved_chunks := ["c1"; "c2"] |}.

(** A small corpus: one directory with two text files and a file of
    another kind. *)
Definition small_fs : FileSystem :=
  {| fs_listdir := {[ "./d/" := ["a.txt"; "notes.md"; "b.txt"] ]};
     fs_text := {[ "./d/a.txt" := "alpha"; "./d/b.txt" := "beta";
                   "./d/notes.md" := "gamma" ]};
     fs_json := ∅ |}.

(** A benchmark file with two tests; its first snippet has a member the
    loader does not read. *)
Definition small_benchmark_fs : FileSystem :=
  {| fs_listdir := ∅;
     fs_text := ∅;
     fs_json :=
       {[ "b.json" :=
            JObj [("tests",
                   JArr [JObj [("query", JStr "q1");
                               ("snippets",
                                JArr [JObj [("file_path", JStr "f1");
                                            ("span", JArr [JInt 0; JInt 2]);
                                            ("answer", JStr "a1")]])];
                         JObj [("query", JStr "q2"); ("snippets", JArr [])]])] ]} |}.

Definition small_benchmark : list Benchmark.Test :=
  [ {| Benchmark.test_query := "q1";
       Benchmark.snippets := [ {| Benchmark.answer := "a1"; Benchmark.file_path := "f1" |} ] |};
    {| Benchmark.test_query := "q2"; Benchmark.snippets := [] |} ].

(** A document of 3000 letters [a]. *)
Definition three_thousand_a : Document :=
  TextSplitter.plain_document (TextSplitter.repeat_char (ascii_of_nat 97) 3000).

End Scenario.

(** ** Cell 13: the RAGChecker checkpoint *)

Module CheckerFile.


(** What [json.dump] writes for one formatted result and for the whole
    [{"results": [...]}] dictionary. *)
Definition dump_context (context : Formatter.Context) : json :=
  JObj [("text", JStr (Formatter.ctx_text context))].

Definition dump_result (res : Formatter.CheckerResult) : json :=
  JObj [("query_id", JStr (Formatter.cr_query_id res));
        ("query", JStr (Formatter.cr_query res));
        ("gt_answer", JStr (Formatter.gt_answer res));
        ("response", JStr (Formatter.response res));
        ("retrieved_context",
         JArr (dump_context <$> Formatter.retrieved_context res))].

Definition dump (ragchecker_results : list Formatter.CheckerResult) : json :=
  JObj [("results", JArr (dump_result <$> ragchecker_results))].


End CheckerFile.

(** ** Notions used by the further properties *)

Module Notions.

(** The total length of a list of splits. *)
Definition sumlen (l : list string) : Z :=
  foldr (λ piece acc, TextSplitter.len piece + acc) 0 l.

(** A chunk is trimmed: it is not empty and [strip] leaves it as it is,
    so it neither starts nor ends with whitespace. *)
Definition trimmed (chunk : string) : Prop :=
  chunk ≠ "" ∧ PyStr.strip chunk = chunk.

(** A chunk comes from one of the documents: it has that document's
    metadata, with the start index added. *)
Definition chunk_of (docs : list Document) (chunk : Document) : Prop :=
  ∃ doc index, doc ∈ docs
    ∧ metadata chunk = <["start_index" := MInt index]> (metadata doc).

(** A call on the remaining separators that always succeeds with trimmed
    chunks. *)
Definition recurse_ok (recurse : option (string → option (list string))) : Prop :=
  ∀ f, recurse = Some f → ∀ s, ∃ out, f s = Some out ∧ Forall trimmed out.

(** The RAGAs blocks of a list of renderings, one after the other. *)
Fixpoint ragas_blocks (renderings : list string) : string :=
  match renderings with
  | [] => ""
  | rendering :: rest => Output.ragas_block rendering +:+ ragas_blocks rest
  end.

(** The metrics file after cell 18 has run once for each rendering. *)
Definition ragas_runs (renderings : list string) (files : gmap string string)
    : gmap string string :=
  fold_left (λ files rendering, Output.write_ragas rendering files) renderings files.

(** The RAGChecker entry of a result of the retrieval loop whose first
    ground-truth answer is [first]. *)
Definition checker_entry (res : ResultRecord Document) (first : string)
    : Formatter.CheckerResult :=
  {| Formatter.cr_query_id := pretty (query_id res);
     Formatter.cr_query := query res;
     Formatter.gt_answer := first;
     Formatter.response := generated_answer res;
     Formatter.retrieved_context :=
       (λ chunk, {| Formatter.ctx_text := page_content chunk |})
       <$> retrieved_chunks res |}.

End Notions.

(** * Properties *)

(** ** The RAGChecker formatter *)

Section FormatterFacts.

Import Formatter.

Lemma format_loop_acc rs out :
  format_loop rs out = out ++ format_loop rs [].
Proof.
  revert out. induction rs as [|res rs IH]; intros out; simpl.
  - by rewrite app_nil_r.
  - destruct (ground_truth_answer res) as [|first others].
    + apply IH.
    + rewrite IH, (IH [_]). by rewrite <- app_assoc.
Qed.

Lemma ragchecker_results_cons res rs :
  ragchecker_results (res :: rs) = formatted res ++ ragchecker_results rs.
Proof.
  unfold ragchecker_results, formatted. simpl.
  destruct (ground_truth_answer res); [done|].
  by rewrite format_loop_acc.
Qed.

Lemma ragchecker_results_app rs1 rs2 :
  ragchecker_results (rs1 ++ rs2) = ragchecker_results rs1 ++ ragchecker_results rs2.
Proof.
  induction rs1 as [|res rs1 IH]; [done|].
  rewrite <- app_comm_cons, !ragchecker_results_cons, IH. by rewrite app_assoc.
Qed.

Lemma ragchecker_results_omap rs :
  ragchecker_results rs
  = omap (λ res, formatted_res res <$> head (ground_truth_answer res)) rs.
Proof.
  induction rs as [|res rs IH]; [done|].
  rewrite ragchecker_results_cons, IH. unfold formatted. simpl.
  by destruct (ground_truth_answer res).
Qed.

Lemma ragchecker_results_ids rs :
  cr_query_id <$> ragchecker_results rs
  = (λ res, pretty (query_id res)) <$> filter (λ res, ground_truth_answer res ≠ []) rs.
Proof.
  induction rs as [|res rs IH]; [done|].
  rewrite ragchecker_results_cons, fmap_app, IH, filter_cons. unfold formatted.
  destruct (ground_truth_answer res) eqn:E; case_decide; try done.
Qed.

End FormatterFacts.

(** ** The metrics file *)

Section OutputFacts.

Import Output.

Lemma write_ragas_appends rendering : appends (write_ragas rendering).
Proof.
  intros files old Hold. exists (ragas_block rendering).
  unfold write_ragas, write_file. by rewrite lookup_insert_eq, Hold.
Qed.

End OutputFacts.

(** ** The checkpoint *)

Section CheckpointFacts.

Import Checkpoint.

Lemma mapM_as_str (l : list string) : mapM Json.as_str (JStr <$> l) = Some l.
Proof. by apply mapM_fmap_Some. Qed.

Lemma mapM_page_content (l : list string) :
  mapM (Json.get_str "page_content") ((λ t, JObj [("page_content", JStr t)]) <$> l)
  = Some l.
Proof. by apply mapM_fmap_Some. Qed.

Lemma load_dump_res (res : ResultRecord string) : load_res (dump_res res) = Some res.
Proof.
  destruct res as [qid q gt ga chunks]. unfold load_res, dump_res.
  pose proof (mapM_as_str gt) as Hgt.
  pose proof (mapM_page_content chunks) as Hchunks.
  cbn [query_id query ground_truth_answer generated_answer retrieved_chunks].
  set (gt_items := JStr <$> gt) in *.
  set (chunk_items := _ <$> chunks) in *.
  simpl. rewrite Hgt. simpl. by rewrite Hchunks.
Qed.

Lemma load_dump (rs : list (ResultRecord string)) :
  mapM load_res (dump_res <$> rs) = Some rs.
Proof. apply mapM_fmap_Some, load_dump_res. Qed.

Lemma json_results_save results fs :
  json_results (save_results results fs) = Some (serializable_results results).
Proof.
  unfold json_results, save_results. simpl. rewrite lookup_insert_eq. simpl.
  apply load_dump.
Qed.

End CheckpointFacts.

(** [C4] For a result record whose ground-truth list is [first :: others],
    the RAGChecker formatter emits, at the record's place in the output,
    an entry whose [gt_answer] is exactly [first]; the further elements
    [others] appear nowhere in it. *)
Theorem C4_gt_answer_is_first_ground_truth
    (before after : list (ResultRecord string)) (res : ResultRecord string)
    (first : string) (others : list string) :
  ground_truth_answer res = first :: others →
  Formatter.ragchecker_results (before ++ res :: after)
  = Formatter.ragchecker_results before
    ++ Formatter.formatted_res res first :: Formatter.ragchecker_results after
  ∧ Formatter.gt_answer (Formatter.formatted_res res first) = first.
Proof.
  intros Hgt. split; [|done].
  rewrite ragchecker_results_app, ragchecker_results_cons.
  unfold Formatter.formatted. by rewrite Hgt.
Qed.


Lemma C4_gt_answer_is_first_ground_truth_witness :
  ground_truth_answer Scenario.record_A_B = "A" :: ["B"]
  ∧ (Formatter.ragchecker_results ([] ++ Scenario.record_A_B :: [])
     = Formatter.ragchecker_results []
       ++ Formatter.formatted_res Scenario.record_A_B "A" :: Formatter.ragchecker_results []
     ∧ Formatter.gt_answer (Formatter.formatted_res Scenario.record_A_B "A") = "A").
Proof.
  split; [reflexivity|].
  apply (C4_gt_answer_is_first_ground_truth [] [] Scenario.record_A_B "A" ["B"]).
  reflexivity.
Defined.

(** [C10] The formatter's output is exactly the entries of the records
    with a non-empty ground-truth list, in input order: a record with an
    empty list contributes nothing, neither an entry with an empty
    [gt_answer] nor any other. *)
Theorem C10_empty_ground_truth_omitted (json_results : list (ResultRecord string)) :
  Formatter.ragchecker_results json_results
  = omap (λ res, Formatter.formatted_res res <$> head (ground_truth_answer res))
      json_results
  ∧ Formatter.cr_query_id <$> Formatter.ragchecker_results json_results
    = (λ res, pretty (query_id res))
      <$> filter (λ res, ground_truth_answer res ≠ []) json_results
  ∧ length (Formatter.ragchecker_results json_results)
    = length (filter (λ res, ground_truth_answer res ≠ []) json_results).
Proof.
  split; [apply ragchecker_results_omap|].
  split; [apply ragchecker_results_ids|].
  rewrite <- (length_fmap Formatter.cr_query_id), ragchecker_results_ids.
  by rewrite length_fmap.
Qed.

(** [C6] Writing a list of result records to the JSON checkpoint and
    reading the checkpoint back yields the records in the same order with
    the same [query_id], [query], [ground_truth_answer] and
    [generated_answer]; of each retrieved chunk only its text comes back. *)
Theorem C6_checkpoint_round_trip (results : list (ResultRecord Document))
    (fs : FileSystem) :
  ∃ json_results,
    Checkpoint.json_results (Checkpoint.save_results results fs) = Some json_results
    ∧ query_id <$> json_results = query_id <$> results
    ∧ query <$> json_results = query <$> results
    ∧ ground_truth_answer <$> json_results = ground_truth_answer <$> results
    ∧ generated_answer <$> json_results = generated_answer <$> results
    ∧ retrieved_chunks <$> json_results
      = (λ res, page_content <$> retrieved_chunks res) <$> results.
Proof.
  exists (Checkpoint.serializable_results results).
  split; [apply json_results_save|].
  unfold Checkpoint.serializable_results.
  repeat split; rewrite <- list_fmap_compose; done.
Qed.

(** [C7] The sampling cell seeds the generator with 100 before it draws:
    whatever state the generator is in when the cell starts, the cell
    yields the same 100 indices of [range(6889)] and so the same sampled
    records. *)
Theorem C7_sampling_is_reproducible (RandomState : Type) (seed : Z → RandomState)
    (sample : RandomState → nat → nat → option (list nat * RandomState))
    (rng1 rng2 : RandomState) (legalbench_rag_qa : list QA) :
  Sampling.sampled_indices RandomState seed sample rng1 legalbench_rag_qa
  = Sampling.sampled_indices RandomState seed sample rng2 legalbench_rag_qa
  ∧ Sampling.legalbench_rag_subset RandomState seed sample rng1 legalbench_rag_qa
    = Sampling.legalbench_rag_subset RandomState seed sample rng2 legalbench_rag_qa
  ∧ ∀ indices rng' subset,
      sample (seed 100) 6889%nat 100%nat = Some (indices, rng') →
      Sampling.subset_at legalbench_rag_qa indices = Some subset →
      Sampling.sampling_cell RandomState seed sample rng1 legalbench_rag_qa
      = Some (indices, subset, rng').
Proof.
  split; [done|]. split; [done|].
  intros indices rng' subset Hsample Hsubset.
  unfold Sampling.sampling_cell. rewrite Hsample. simpl.
  unfold Sampling.subset_at in Hsubset. by rewrite Hsubset.
Qed.

(** [C8], as the notebook has it: the RAGChecker cell opens the metrics
    file for writing and so replaces what it held; the RAGAs cell appends.
    After the RAGChecker write and then the RAGAs write the file holds the
    RAGChecker block followed by the RAGAs block, and no other file
    changes. *)
Theorem C8_first_write_replaces_second_appends (rendering1 rendering2 : string)
    (files : gmap string string) :
  Output.appends (Output.write_ragas rendering2)
  ∧ Output.write_ragchecker rendering1 files !! Output.framework_results_path
    = Some (Output.ragchecker_block rendering1)
  ∧ Output.write_ragas rendering2 (Output.write_ragchecker rendering1 files)
      !! Output.framework_results_path
    = Some (Output.ragchecker_block rendering1 +:+ Output.ragas_block rendering2)
  ∧ ∀ other, other ≠ Output.framework_results_path →
      Output.write_ragas rendering2 (Output.write_ragchecker rendering1 files) !! other
      = files !! other.
Proof.
  split; [apply write_ragas_appends|].
  unfold Output.write_ragas, Output.write_ragchecker, Output.write_file.
  split; [by rewrite lookup_insert_eq|].
  split; [by rewrite !lookup_insert_eq|].
  intros other Hne. by rewrite !lookup_insert_ne.
Qed.

(** [C8] as stated fails for the RAGChecker write: a metrics file that
    already holds text does not keep it. *)
Lemma C8_ragchecker_write_does_not_append :
  ¬ Output.appends (Output.write_ragchecker "metrics").
Proof.
  intros Happ.
  destruct (Happ {[ Output.framework_results_path := "old" ]} "old") as [added Hadded].
  - apply lookup_singleton_eq.
  - unfold Output.write_ragchecker, Output.write_file in Hadded.
    rewrite lookup_insert_eq in Hadded. discriminate Hadded.
Qed.

(** ** The RAGAs loop *)

Section RagasFacts.

Import Ragas.

Variable World : Type.
Variable single_turn_ascore : scorer → SingleTurnSample → World → float * World.

Lemma sample_of_nonempty (res : ResultRecord string) :
  ground_truth_answer res ≠ [] → is_Some (sample_of res).
Proof.
  unfold sample_of. destruct (ground_truth_answer res) as [|first others]; [done|].
  intros _. simpl. eauto.
Qed.

Lemma instance_scores_total (rs : list (ResultRecord string)) (w : World) :
  Forall (λ res, ground_truth_answer res ≠ []) rs →
  ∃ scores, instance_scores World single_turn_ascore rs w = Some scores
            ∧ length scores = length rs.
Proof.
  intros Hall. revert w. induction Hall as [|res rs Hres _ IH]; intros w.
  - by exists [].
  - simpl. destruct (sample_of_nonempty res Hres) as [sample ->]. simpl.
    destruct (single_turn_ascore Faithfulness sample w) as [f w1].
    destruct (single_turn_ascore ResponseRelevancy sample w1) as [a w2].
    destruct (single_turn_ascore LLMContextRecall sample w2) as [c w3].
    destruct (IH w3) as (scores & -> & Hlen). simpl.
    exists ((f, a, c) :: scores). by rewrite <- Hlen.
Qed.

(** The loop invariant: the accumulator holds, under each key, the sum of
    that metric's scores so far, added up in loop order. *)
Lemma eval_loop_totals (rs : list (ResultRecord string)) :
  ∀ (f a c : float) (w : World) scores,
    instance_scores World single_turn_ascore rs w = Some scores →
    ∃ w', eval_loop World single_turn_ascore rs (metrics_of f a c) w
          = Some (metrics_of
                    (fold_left PrimFloat.add (faithfulness_scores scores) f)
                    (fold_left PrimFloat.add (answer_relevance_scores scores) a)
                    (fold_left PrimFloat.add (context_relevance_scores scores) c),
                  w').
Proof.
  induction rs as [|res rs IH]; intros f a c w scores Hscores; simpl in *.
  - injection Hscores as <-. by exists w.
  - destruct (sample_of res) as [sample|]; simpl in *; [|done].
    destruct (single_turn_ascore Faithfulness sample w) as [f1 w1].
    destruct (single_turn_ascore ResponseRelevancy sample w1) as [a1 w2].
    destruct (single_turn_ascore LLMContextRecall sample w2) as [c1 w3].
    destruct (instance_scores _ _ rs w3) as [rest|] eqn:Hrest; simpl in *; [|done].
    injection Hscores as <-.
    destruct (IH (f + f1)%float (a + a1)%float (c + c1)%float w3 rest Hrest)
      as [w' Hloop].
    exists w'.
    change (iadd "faithfulness" f1 (metrics_of f a c))
      with (Some (metrics_of (f + f1) a c)).
    simpl.
    change (iadd "answer_relevance" a1 (metrics_of (f + f1) a c))
      with (Some (metrics_of (f + f1) (a + a1) c)).
    simpl.
    change (iadd "context_relevance" c1 (metrics_of (f + f1) (a + a1) c))
      with (Some (metrics_of (f + f1) (a + a1) (c + c1))).
    simpl. exact Hloop.
Qed.

End RagasFacts.

(** [C1], as the notebook has it: when every record has a ground-truth
    answer, each metric's final value is the running sum of its
    per-instance scores divided by the constant 100.  That is the mean
    over the processed records when there are 100 of them. *)
Theorem C1_metric_is_running_sum_over_100 (World : Type)
    (single_turn_ascore : Ragas.scorer → Ragas.SingleTurnSample → World → float * World)
    (json_results : list (ResultRecord string)) (w : World) :
  Forall (λ res, ground_truth_answer res ≠ []) json_results →
  ∃ scores metrics w',
    Ragas.instance_scores World single_turn_ascore json_results w = Some scores
    ∧ length scores = length json_results
    ∧ Ragas.metrics World single_turn_ascore json_results w = Some (metrics, w')
    ∧ metrics !! "faithfulness"
      = Some (Ragas.running_sum (Ragas.faithfulness_scores scores) / 100)%float
    ∧ metrics !! "answer_relevance"
      = Some (Ragas.running_sum (Ragas.answer_relevance_scores scores) / 100)%float
    ∧ metrics !! "context_relevance"
      = Some (Ragas.running_sum (Ragas.context_relevance_scores scores) / 100)%float
    ∧ (length json_results = 100%nat →
       metrics !! "faithfulness" = Some (Ragas.mean (Ragas.faithfulness_scores scores))
       ∧ metrics !! "answer_relevance"
         = Some (Ragas.mean (Ragas.answer_relevance_scores scores))
       ∧ metrics !! "context_relevance"
         = Some (Ragas.mean (Ragas.context_relevance_scores scores))).
Proof.
  intros Hall.
  destruct (instance_scores_total World single_turn_ascore json_results w Hall)
    as (scores & Hscores & Hlen).
  destruct (eval_loop_totals World single_turn_ascore json_results
              0%float 0%float 0%float w scores Hscores) as [w' Hloop].
  eexists scores, _, w'.
  split; [done|]. split; [done|].
  split.
  { unfold Ragas.metrics.
    change Ragas.initial_metrics with (Ragas.metrics_of 0 0 0).
    rewrite Hloop. reflexivity. }
  split; [reflexivity|]. split; [reflexivity|]. split; [reflexivity|].
  intros H100. unfold Ragas.mean.
  unfold Ragas.faithfulness_scores, Ragas.answer_relevance_scores,
    Ragas.context_relevance_scores.
  rewrite !length_fmap, Hlen, H100. repeat split; reflexivity.
Qed.

Lemma C1_metric_is_running_sum_over_100_witness :
  Forall (λ res, ground_truth_answer res ≠ []) [Scenario.record_A_B]
  ∧ ∃ scores metrics w',
      Ragas.instance_scores unit Ragas.constant_scorer [Scenario.record_A_B] () = Some scores
      ∧ length scores = length [Scenario.record_A_B]
      ∧ Ragas.metrics unit Ragas.constant_scorer [Scenario.record_A_B] () = Some (metrics, w')
      ∧ metrics !! "faithfulness"
        = Some (Ragas.running_sum (Ragas.faithfulness_scores scores) / 100)%float
      ∧ metrics !! "answer_relevance"
        = Some (Ragas.running_sum (Ragas.answer_relevance_scores scores) / 100)%float
      ∧ metrics !! "context_relevance"
        = Some (Ragas.running_sum (Ragas.context_relevance_scores scores) / 100)%float
      ∧ (length [Scenario.record_A_B] = 100%nat →
         metrics !! "faithfulness" = Some (Ragas.mean (Ragas.faithfulness_scores scores))
         ∧ metrics !! "answer_relevance"
           = Some (Ragas.mean (Ragas.answer_relevance_scores scores))
         ∧ metrics !! "context_relevance"
           = Some (Ragas.mean (Ragas.context_relevance_scores scores))).
Proof.
  assert (Forall (λ res, ground_truth_answer res ≠ []) [Scenario.record_A_B]) as Hall.
  { constructor; [discriminate|constructor]. }
  split; [exact Hall|].
  exact (C1_metric_is_running_sum_over_100 unit Ragas.constant_scorer
           [Scenario.record_A_B] () Hall).
Defined.

(** [C1] as stated fails when the number of records is not 100: one
    record scored 1.0 ends with 0.01 under every key, while the mean of
    its scores is 1.0. *)
Lemma C1_one_record_is_not_averaged :
  Ragas.instance_scores unit Ragas.constant_scorer [Scenario.record_A_B] ()
  = Some [(1, 1, 1)%float]
  ∧ (Ragas.metrics unit Ragas.constant_scorer [Scenario.record_A_B] ()
     ≫= λ r, r.1 !! "faithfulness") = Some (1 / 100)%float
  ∧ Ragas.mean (Ragas.faithfulness_scores [(1, 1, 1)%float]) = 1%float
  ∧ (Ragas.metrics unit Ragas.constant_scorer [Scenario.record_A_B] ()
     ≫= λ r, r.1 !! "faithfulness")
    ≠ Some (Ragas.mean (Ragas.faithfulness_scores [(1, 1, 1)%float])).
Proof.
  split; [reflexivity|]. split; [reflexivity|]. split; [reflexivity|].
  intros Heq.
  pose proof (f_equal (λ o, match o with
                            | Some x => PrimFloat.eqb x 1
                            | None => false
                            end) Heq) as Habs.
  vm_compute in Habs. discriminate Habs.
Qed.

(** ** The corpus loader *)

Section CorpusFacts.

Import Corpus.

Lemma load_folder_spec fs folder entries docs :
  Forall (λ file, PyStr.endswith file ".txt" = true →
                  is_Some (fs_text fs !! (folder +:+ file))) entries →
  ∃ new, load_folder fs folder entries docs = Some (docs ++ new)
         ∧ Forall2 (document_of fs) new (text_files folder entries).
Proof.
  intros Hread. revert docs.
  induction Hread as [|file entries Hfile _ IH]; intros docs.
  - exists []. by rewrite app_nil_r.
  - simpl. unfold text_files. rewrite filter_cons.
    destruct (PyStr.endswith file ".txt") eqn:Htxt.
    + destruct (Hfile eq_refl) as [content Hcontent]. rewrite Hcontent. simpl.
      edestruct IH as (new & -> & Hnew).
      eexists (_ :: new). rewrite <- app_assoc. split; [done|].
      constructor; [by split|exact Hnew].
    + apply IH.
Qed.

Lemma load_folders_spec fs dirs docs :
  Forall (loadable fs) dirs →
  ∃ new, load_folders fs dirs docs = Some (docs ++ new)
         ∧ Forall2 (document_of fs) new (corpus_text_files fs dirs).
Proof.
  intros Hdirs. revert docs.
  induction Hdirs as [|folder dirs (entries & Hlist & Hread) _ IH]; intros docs.
  - exists []. by rewrite app_nil_r.
  - simpl. rewrite Hlist. simpl.
    destruct (load_folder_spec fs folder entries docs Hread) as (new1 & -> & Hnew1).
    simpl. destruct (IH (docs ++ new1)) as (new2 & -> & Hnew2).
    exists (new1 ++ new2). rewrite <- app_assoc. split; [done|].
    change (Forall2 (document_of fs) (new1 ++ new2)
              (text_files folder entries ++ corpus_text_files fs dirs)).
    by apply Forall2_app.
Qed.

End CorpusFacts.

(** [C9] When every input directory can be listed and each of its text
    files can be read, the corpus loader returns one document per text
    file, directory by directory in listing order; the document's metadata
    holds the directory path as [source_dataset] and the file's name as
    [filename], and its text is the file's content.  So the number of
    documents is the number of text files. *)
Theorem C9_one_document_per_text_file (fs : FileSystem) (dirs : list string) :
  Forall (Corpus.loadable fs) dirs →
  ∃ docs,
    Corpus.legalbench_rag_retrieval_docs fs dirs = Some docs
    ∧ Forall2 (Corpus.document_of fs) docs (Corpus.corpus_text_files fs dirs)
    ∧ length docs = length (Corpus.corpus_text_files fs dirs).
Proof.
  intros Hdirs.
  destruct (load_folders_spec fs dirs [] Hdirs) as (docs & Hload & Hdocs).
  exists docs. split; [exact Hload|]. split; [exact Hdocs|].
  by eapply Forall2_length.
Qed.


Lemma C9_one_document_per_text_file_witness :
  Forall (Corpus.loadable Scenario.small_fs) ["./d/"]
  ∧ ∃ docs,
      Corpus.legalbench_rag_retrieval_docs Scenario.small_fs ["./d/"] = Some docs
      ∧ Forall2 (Corpus.document_of Scenario.small_fs) docs
          (Corpus.corpus_text_files Scenario.small_fs ["./d/"])
      ∧ length docs = length (Corpus.corpus_text_files Scenario.small_fs ["./d/"]).
Proof.
  assert (Forall (Corpus.loadable Scenario.small_fs) ["./d/"]) as Hdirs.
  { constructor; [|constructor].
    exists ["a.txt"; "notes.md"; "b.txt"]. split; [reflexivity|].
    repeat constructor; vm_compute; eauto. }
  split; [exact Hdirs|].
  exact (C9_one_document_per_text_file Scenario.small_fs ["./d/"] Hdirs).
Defined.

(** ** The benchmark loader and the query identifiers *)

Section BenchmarkFacts.

Import Benchmark.

Lemma answers_of_snippets items (snips : list Snippet) :
  Forall2 snippet_repr items snips →
  mapM answer_of_snippet items
  = Some ((λ s, answer s +:+ PyStr.LF +:+ "Source: " +:+ file_path s) <$> snips).
Proof.
  intros Hrepr. apply mapM_Some_2, Forall2_fmap_r.
  eapply Forall2_impl; [exact Hrepr|].
  intros j s [Ha Hp]. unfold answer_of_snippet. by rewrite Ha, Hp.
Qed.

Lemma load_tests_spec items (tests : list Test) :
  Forall2 test_repr items tests →
  ∀ qa id, load_tests items qa id
           = Some (qa ++ imap (λ i t, qa_of (id + Z.of_nat i) t) tests,
                   id + Z.of_nat (length tests)).
Proof.
  induction 1 as [|j t items tests (Hq & snips & Hs & Hsnips) _ IH]; intros qa id.
  - simpl. by rewrite app_nil_r, Z.add_0_r.
  - simpl. rewrite Hq, Hs. simpl. rewrite (answers_of_snippets _ _ Hsnips). simpl.
    rewrite IH, <- app_assoc. do 2 f_equal; [|lia].
    simpl. unfold qa_of at 2. rewrite Z.add_0_r. do 2 f_equal.
    apply imap_ext. intros i t' _. simpl. f_equal. lia.
Qed.

Lemma load_benchmarks_spec fs paths (files : list (list Test)) :
  Forall2 (benchmark_at fs) paths files →
  ∀ qa id, load_benchmarks fs paths qa id
           = Some (qa ++ imap (λ i t, qa_of (id + Z.of_nat i) t) (concat files),
                   id + Z.of_nat (length (concat files))).
Proof.
  induction 1 as [|path tests paths files (data & Hdata & items & Hitems & Hrepr) _ IH];
    intros qa id.
  - simpl. by rewrite app_nil_r, Z.add_0_r.
  - simpl. rewrite Hdata. simpl. rewrite Hitems. simpl.
    rewrite (load_tests_spec _ _ Hrepr). simpl.
    rewrite IH, <- app_assoc, imap_app, length_app. do 2 f_equal; [|lia].
    do 2 f_equal. apply imap_ext. intros i t' _. simpl. f_equal. lia.
Qed.

Lemma legalbench_rag_qa_spec fs paths (files : list (list Test)) :
  Forall2 (benchmark_at fs) paths files →
  legalbench_rag_qa fs paths
  = Some (imap (λ i t, qa_of (1 + Z.of_nat i) t) (concat files)).
Proof.
  intros Hfiles. unfold legalbench_rag_qa.
  by rewrite (load_benchmarks_spec _ _ _ Hfiles).
Qed.

Lemma qa_ids (tests : list Test) :
  qa_query_id <$> imap (λ i t, qa_of (1 + Z.of_nat i) t) tests
  = seqZ 1 (Z.of_nat (length tests)).
Proof.
  rewrite fmap_imap.
  rewrite (imap_ext _ (λ i _, Z.of_nat i + 1)) by (intros; simpl; lia).
  rewrite imap_seq_0. unfold seqZ. by rewrite Nat2Z.id.
Qed.

End BenchmarkFacts.

Section PipelineFacts.

Import Benchmark.

Lemma subset_at_spec (qa : list QA) (indices : list nat) :
  Forall (λ i, (i < length qa)%nat) indices →
  ∃ subset, Sampling.subset_at qa indices = Some subset
            ∧ Forall2 (λ q i, qa !! i = Some q) subset indices.
Proof.
  intros Hlt.
  assert (is_Some (Sampling.subset_at qa indices)) as [subset Hsubset].
  { apply mapM_is_Some_2. eapply Forall_impl; [exact Hlt|].
    intros i Hi. by apply lookup_lt_is_Some_2. }
  exists subset. split; [exact Hsubset|].
  apply Forall2_flip. by apply mapM_Some_1.
Qed.

Lemma subset_ids (tests : list Test) (subset : list QA) (indices : list nat) :
  Forall2 (λ q i, imap (λ i t, qa_of (1 + Z.of_nat i) t) tests !! i = Some q)
    subset indices →
  qa_query_id <$> subset = (λ i, 1 + Z.of_nat i) <$> indices.
Proof.
  induction 1 as [|q i subset indices Hq _ IH]; [done|].
  csimpl. rewrite IH. f_equal.
  rewrite list_lookup_imap in Hq.
  destruct (tests !! i) as [t|]; simpl in Hq; [|done].
  by injection Hq as <-.
Qed.

Variable World : Type.
Variable similarity_search : string → nat → World → list Document * World.
Variable invoke : string → World → string * World.

Lemma rag_loop_spec (subset : list QA) :
  ∀ results w,
    ∃ new, (Pipeline.rag_loop World similarity_search invoke subset results w).1
           = results ++ new
           ∧ Forall2 Pipeline.carries new subset.
Proof.
  induction subset as [|qa subset IH]; intros results w; simpl.
  - exists []. by rewrite app_nil_r.
  - destruct (similarity_search (qa_query qa) 10 w) as [chunks w1].
    destruct (invoke _ w1) as [content w2].
    edestruct IH as (new & -> & Hnew).
    eexists (_ :: new). rewrite <- app_assoc. split; [done|].
    constructor; [|exact Hnew]. by repeat split.
Qed.

Lemma results_carry (subset : list QA) (w : World) :
  Forall2 Pipeline.carries
    (Pipeline.results World similarity_search invoke subset w).1 subset.
Proof.
  unfold Pipeline.results.
  destruct (rag_loop_spec subset [] w) as (new & -> & Hnew). exact Hnew.
Qed.

End PipelineFacts.

Lemma carries_ids {Chunk : Type} (rs : list (ResultRecord Chunk)) (subset : list QA) :
  Forall2 Pipeline.carries rs subset → query_id <$> rs = qa_query_id <$> subset.
Proof.
  induction 1 as [|r q rs subset (Hid & _) _ IH]; [done|].
  csimpl. by rewrite Hid, IH.
Qed.

Lemma serializable_carries (rs : list (ResultRecord Document)) (subset : list QA) :
  Forall2 Pipeline.carries rs subset →
  Forall2 Pipeline.carries (Checkpoint.serializable_results rs) subset.
Proof.
  intros Hrs. unfold Checkpoint.serializable_results. apply Forall2_fmap_l.
  eapply Forall2_impl; [exact Hrs|]. by intros r q (? & ? & ?).
Qed.

(** [C5] Benchmark files of the documented shape, loaded in path order,
    give records whose [query_id]s are 1, 2, 3, ... in input order, hence
    unique.  For any sample of distinct indices (what [random.sample]
    draws), every later stage keeps each identifier with its record: the
    results of the retrieval loop, the records read back from the
    checkpoint and the identifiers the formatter renders carry the sampled
    records' identifiers, one each, with no duplicate. *)
Theorem C5_query_ids_unique_and_stable (fs : FileSystem) (paths : list string)
    (files : list (list Benchmark.Test)) (World : Type)
    (similarity_search : string → nat → World → list Document * World)
    (invoke : string → World → string * World) (w : World)
    (indices : list nat) (fs' : FileSystem) :
  Forall2 (Benchmark.benchmark_at fs) paths files →
  NoDup indices →
  Forall (λ i, (i < length (concat files))%nat) indices →
  ∃ qa subset json_results,
    Benchmark.legalbench_rag_qa fs paths = Some qa
    ∧ qa_query_id <$> qa = seqZ 1 (Z.of_nat (length qa))
    ∧ NoDup (qa_query_id <$> qa)
    ∧ Sampling.subset_at qa indices = Some subset
    ∧ Forall2 (λ q i, qa !! i = Some q) subset indices
    ∧ let results := (Pipeline.results World similarity_search invoke subset w).1 in
      Forall2 Pipeline.carries results subset
      ∧ NoDup (query_id <$> results)
      ∧ Checkpoint.json_results (Checkpoint.save_results results fs') = Some json_results
      ∧ Forall2 Pipeline.carries json_results subset
      ∧ NoDup (query_id <$> json_results)
      ∧ Formatter.cr_query_id <$> Formatter.ragchecker_results json_results
        = pretty <$> (query_id <$> filter (λ res, ground_truth_answer res ≠ [])
                                     json_results)
      ∧ NoDup (Formatter.cr_query_id <$> Formatter.ragchecker_results json_results).
Proof.
  intros Hfiles Hnodup Hlt.
  set (qa := imap (λ i t, Benchmark.qa_of (1 + Z.of_nat i) t) (concat files)).
  assert (length qa = length (concat files)) as Hlen by apply length_imap.
  destruct (subset_at_spec qa indices) as (subset & Hsubset & Hat).
  { by rewrite Hlen. }
  assert (NoDup (qa_query_id <$> subset)) as Hsub_nodup.
  { rewrite (subset_ids _ _ _ Hat). apply NoDup_fmap_2; [|exact Hnodup].
    intros i j Hij. lia. }
  pose proof (results_carry World similarity_search invoke subset w) as Hcarry.
  set (results := (Pipeline.results World similarity_search invoke subset w).1) in *.
  exists qa, subset, (Checkpoint.serializable_results results).
  split; [by apply legalbench_rag_qa_spec|].
  assert (qa_query_id <$> qa = seqZ 1 (Z.of_nat (length qa))) as Hids.
  { rewrite Hlen. apply qa_ids. }
  split; [exact Hids|].
  split; [rewrite Hids; apply NoDup_seqZ|].
  split; [exact Hsubset|]. split; [exact Hat|].
  pose proof (serializable_carries _ _ Hcarry) as Hcarry'.
  assert (NoDup (query_id <$> Checkpoint.serializable_results results)) as Hjson_nodup.
  { by rewrite (carries_ids _ _ Hcarry'). }
  cbv zeta. fold results.
  split; [exact Hcarry|].
  split; [by rewrite (carries_ids _ _ Hcarry)|].
  split; [apply json_results_save|].
  split; [exact Hcarry'|].
  split; [exact Hjson_nodup|].
  assert (Formatter.cr_query_id
            <$> Formatter.ragchecker_results (Checkpoint.serializable_results results)
          = pretty <$> (query_id <$> filter (λ res, ground_truth_answer res ≠ [])
                                       (Checkpoint.serializable_results results)))
    as Hfmt.
  { rewrite ragchecker_results_ids. by rewrite <- list_fmap_compose. }
  split; [exact Hfmt|].
  rewrite Hfmt. apply NoDup_fmap_2; [apply _|].
  eapply sublist_NoDup; [exact Hjson_nodup|].
  apply fmap_sublist, sublist_filter.
Qed.


Lemma C5_query_ids_unique_and_stable_witness :
  Forall2 (Benchmark.benchmark_at Scenario.small_benchmark_fs) ["b.json"] [Scenario.small_benchmark]
  ∧ NoDup [1; 0]%nat
  ∧ Forall (λ i, (i < length (concat [Scenario.small_benchmark]))%nat) [1; 0]%nat
  ∧ ∃ qa subset json_results,
      Benchmark.legalbench_rag_qa Scenario.small_benchmark_fs ["b.json"] = Some qa
      ∧ qa_query_id <$> qa = seqZ 1 (Z.of_nat (length qa))
      ∧ NoDup (qa_query_id <$> qa)
      ∧ Sampling.subset_at qa [1; 0]%nat = Some subset
      ∧ Forall2 (λ q i, qa !! i = Some q) subset [1; 0]%nat
      ∧ let results :=
          (Pipeline.results unit Pipeline.no_search Pipeline.fixed_answer subset ()).1 in
        Forall2 Pipeline.carries results subset
        ∧ NoDup (query_id <$> results)
        ∧ Checkpoint.json_results (Checkpoint.save_results results Scenario.small_fs)
          = Some json_results
        ∧ Forall2 Pipeline.carries json_results subset
        ∧ NoDup (query_id <$> json_results)
        ∧ Formatter.cr_query_id <$> Formatter.ragchecker_results json_results
          = pretty <$> (query_id <$> filter (λ res, ground_truth_answer res ≠ [])
                                       json_results)
        ∧ NoDup (Formatter.cr_query_id <$> Formatter.ragchecker_results json_results).
Proof.
  assert (Forall2 (Benchmark.benchmark_at Scenario.small_benchmark_fs) ["b.json"] [Scenario.small_benchmark])
    as Hfiles.
  { constructor; [|constructor].
    eexists. split; [reflexivity|].
    eexists. split; [reflexivity|].
    constructor; [|constructor; [|constructor]].
    - split; [reflexivity|]. eexists. split; [reflexivity|].
      constructor; [|constructor]. split; reflexivity.
    - split; [reflexivity|]. eexists. split; [reflexivity|]. constructor. }
  assert (NoDup [1; 0]%nat) as Hnodup.
  { apply NoDup_cons. split; [|apply NoDup_singleton].
    intros Hin. apply list_elem_of_singleton in Hin. discriminate Hin. }
  assert (Forall (λ i, (i < length (concat [Scenario.small_benchmark]))%nat) [1; 0]%nat) as Hlt.
  { constructor; [simpl; lia|]. constructor; [simpl; lia|]. constructor. }
  split; [exact Hfiles|]. split; [exact Hnodup|]. split; [exact Hlt|].
  exact (C5_query_ids_unique_and_stable Scenario.small_benchmark_fs ["b.json"] [Scenario.small_benchmark]
           unit Pipeline.no_search Pipeline.fixed_answer () [1; 0]%nat Scenario.small_fs
           Hfiles Hnodup Hlt).
Defined.

(** ** The vector store *)

Section VectorStoreFacts.

Import VectorStore.

Variable Embedding : Type.
Variable embed : string → Embedding.

Lemma bare_rows_spec (texts : list string) :
  ∀ next,
    text Embedding <$> bare_rows Embedding embed next texts = texts
    ∧ text_embedding Embedding <$> bare_rows Embedding embed next texts = embed <$> texts
    ∧ Forall (λ row, row_metadata Embedding row = ∅)
        (bare_rows Embedding embed next texts).
Proof.
  induction texts as [|t texts IH]; intros next.
  - repeat split. constructor.
  - destruct (IH (next + 1)) as (Ht & He & Hm). unfold bare_rows in *. csimpl.
    rewrite Ht, He. repeat split. by constructor.
Qed.

(** The call as the cell writes it: the misspelt keyword leaves
    [metadatas] unbound. *)
Lemma add_texts_cell (batch_texts : list string)
    (batch_metadata : list (gmap string meta_value)) (table : list (Row Embedding)) :
  add_texts Embedding embed
    {[ "texts" := KTexts batch_texts; "metdata" := KMetadata batch_metadata ]} table
  = Some (table ++ bare_rows Embedding embed (max_rowid Embedding table + 1) batch_texts).
Proof. reflexivity. Qed.

Lemma add_batches_spec (chunks : list Document) (starts : list nat) :
  ∀ table,
    ∃ rows,
      add_batches Embedding embed chunks starts table = Some (table ++ rows)
      ∧ text Embedding <$> rows
        = page_content <$> concat ((λ i, take batch_size (drop i chunks)) <$> starts)
      ∧ text_embedding Embedding <$> rows
        = embed ∘ page_content
          <$> concat ((λ i, take batch_size (drop i chunks)) <$> starts)
      ∧ Forall (λ row, row_metadata Embedding row = ∅) rows.
Proof.
  induction starts as [|i starts IH]; intros table.
  - exists []. rewrite app_nil_r. repeat split. constructor.
  - cbn [add_batches]. rewrite add_texts_cell. cbn [mbind option_bind].
    edestruct IH as (rows & -> & Ht & He & Hm).
    destruct (bare_rows_spec (page_content <$> take batch_size (drop i chunks))
                (max_rowid Embedding table + 1)) as (Ht1 & He1 & Hm1).
    eexists (_ ++ rows). rewrite <- app_assoc. split; [done|].
    rewrite !fmap_app, Ht, He, Ht1, He1. csimpl.
    rewrite !fmap_app, <- list_fmap_compose. repeat split.
    by apply Forall_app.
Qed.

End VectorStoreFacts.

Lemma batches_cover {A : Type} (l : list A) (size : nat) :
  (0 < size)%nat →
  ∀ n k, concat ((λ i, take size (drop i l)) <$> ((λ j, j * size)%nat <$> seq k n))
         = take (n * size) (drop (k * size) l).
Proof.
  intros Hsize. induction n as [|n IH]; intros k; [done|].
  csimpl. rewrite IH, <- (take_take_drop _ size (n * size)), drop_drop.
  do 3 f_equal. lia.
Qed.

Lemma range_step_batches {A : Type} (l : list A) :
  concat ((λ i, take VectorStore.batch_size (drop i l))
          <$> VectorStore.range_step (length l) VectorStore.batch_size)
  = l.
Proof.
  unfold VectorStore.range_step.
  rewrite batches_cover by (unfold VectorStore.batch_size; lia).
  rewrite drop_0. apply take_ge.
  unfold VectorStore.batch_size.
  pose proof (Nat.div_mod_eq (length l + 1000 - 1) 1000) as Hdiv.
  pose proof (Nat.mod_upper_bound (length l + 1000 - 1) 1000) as Hmod.
  lia.
Qed.

(** [C2] fails on the code: the cell passes the chunks' metadata under
    the keyword [metdata], which [add_texts] does not read.  Every chunk's
    text and embedding is stored, in order, and every stored row has empty
    metadata, so no row leads back to a file name. *)
Theorem C2_chunk_metadata_is_not_stored (Embedding : Type) (embed : string → Embedding)
    (chunks : list Document) :
  ∃ rows,
    VectorStore.legalbench_rag_vector_store Embedding embed chunks = Some rows
    ∧ VectorStore.text Embedding <$> rows = page_content <$> chunks
    ∧ VectorStore.text_embedding Embedding <$> rows = embed ∘ page_content <$> chunks
    ∧ Forall (λ row, VectorStore.row_metadata Embedding row = ∅) rows.
Proof.
  unfold VectorStore.legalbench_rag_vector_store.
  destruct (add_batches_spec Embedding embed chunks
              (VectorStore.range_step (length chunks) VectorStore.batch_size) [])
    as (rows & Hrows & Ht & He & Hm).
  exists rows. rewrite range_step_batches in Ht, He. by repeat split.
Qed.

(** The chunk [traced_chunk] carries its data set, file name and start
    offset; the row stored for it carries none of them. *)
Example traced_chunk_loses_its_metadata :
  (λ rows : list (VectorStore.Row unit), VectorStore.row_metadata unit <$> rows)
  <$> VectorStore.legalbench_rag_vector_store unit (λ _, ()) [VectorStore.traced_chunk]
  = Some [∅]
  ∧ metadata VectorStore.traced_chunk !! "filename" = Some (MStr "a.txt").
Proof. split; reflexivity. Qed.

(** ** The text splitter *)

Section StringFacts.

Lemma app_cons (c : ascii) (x y : string) : String c x +:+ y = String c (x +:+ y).
Proof. reflexivity. Qed.

Lemma app_empty_r (x : string) : x +:+ "" = x.
Proof. induction x as [|c x IH]; [done|]. by rewrite app_cons, IH. Qed.

Lemma concat_empty_cons (x : string) (l : list string) :
  String.concat "" (x :: l) = x +:+ String.concat "" l.
Proof. destruct l as [|y l]; [|done]. simpl. by rewrite app_empty_r. Qed.

Lemma join_chars_take_drop (s : string) :
  ∀ p m, PyStr.join "" (take m (drop p (PyStr.chars s))) = String.substring p m s.
Proof.
  unfold PyStr.join.
  induction s as [|c s IH]; intros p m.
  - simpl. rewrite drop_nil, take_nil. by destruct p, m.
  - destruct p as [|p]; [|apply IH].
    destruct m as [|m]; [done|].
    cbn [PyStr.chars drop take String.substring].
    rewrite concat_empty_cons. simpl. f_equal. apply (IH 0%nat).
Qed.

Lemma length_chars (s : string) : length (PyStr.chars s) = String.length s.
Proof. induction s as [|c s IH]; simpl; [done|]. by rewrite IH. Qed.

Lemma length_substring (s : string) :
  ∀ p m, String.length (String.substring p m s) = (m `min` (String.length s - p))%nat.
Proof.
  induction s as [|c s IH]; intros p m.
  - destruct p, m; simpl; lia.
  - destruct p as [|p]; [destruct m as [|m]|]; simpl; [done| |apply IH].
    rewrite (IH 0%nat). lia.
Qed.

Lemma substring_empty (s : string) p m :
  (p < String.length s)%nat → (0 < m)%nat → String.substring p m s ≠ "".
Proof.
  intros Hp Hm Heq. pose proof (length_substring s p m) as Hlen.
  rewrite Heq in Hlen. simpl in Hlen. lia.
Qed.

(** [find] from a position at which the pattern stands returns that
    position. *)
Lemma index_at (sub : string) :
  sub ≠ "" →
  ∀ s p, String.substring p (String.length sub) s = sub → String.index p sub s = Some p.
Proof.
  intros Hsub s. induction s as [|c s IH]; intros p Hp.
  - destruct sub as [|a sub]; [done|]. by destruct p.
  - destruct p as [|p].
    + apply String.prefix_correct in Hp. cbn [String.index]. by rewrite Hp.
    + cbn [String.index]. by rewrite (IH p Hp).
Qed.

Lemma find_at (s sub : string) (p : nat) :
  sub ≠ "" → String.substring p (String.length sub) s = sub →
  PyStr.find s sub (Z.of_nat p) = Z.of_nat p.
Proof.
  intros Hsub Hp. unfold PyStr.find. by rewrite Nat2Z.id, (index_at sub Hsub s p Hp).
Qed.

End StringFacts.

Section SplitterFacts.

Import TextSplitter.

Lemma sep_if_empty (cond : bool) : sep_if "" cond = 0.
Proof. by destruct cond. Qed.

Lemma plain_char_len (d : string) : plain_char d → len d = 1.
Proof. by intros (c & -> & _). Qed.

Lemma chars_plain (s : string) : has_space s = false → Forall plain_char (PyStr.chars s).
Proof.
  induction s as [|c s IH]; simpl; intros Hs; [constructor|].
  apply orb_false_elim in Hs as [Hc Hs]. constructor; [by exists c|by apply IH].
Qed.

Lemma join_plain_cons (d : string) (l : list string) :
  plain_char d →
  ∃ c, PyStr.isspace c = false ∧ PyStr.join "" (d :: l) = String c (PyStr.join "" l).
Proof.
  intros (c & -> & Hc). exists c. split; [done|].
  unfold PyStr.join. by rewrite concat_empty_cons.
Qed.

Lemma has_space_join (l : list string) :
  Forall plain_char l → has_space (PyStr.join "" l) = false.
Proof.
  induction 1 as [|d l Hd _ IH]; [done|].
  destruct (join_plain_cons d l Hd) as (c & Hc & ->). simpl. by rewrite Hc, IH.
Qed.

Lemma rstrip_no_space (s : string) : has_space s = false → PyStr.rstrip s = s.
Proof.
  induction s as [|c s IH]; simpl; intros Hs; [done|].
  apply orb_false_elim in Hs as [Hc Hs]. rewrite (IH Hs), Hc. by destruct s.
Qed.

Lemma strip_no_space (s : string) : has_space s = false → PyStr.strip s = s.
Proof.
  intros Hs. unfold PyStr.strip.
  assert (PyStr.lstrip s = s) as ->; [|by apply rstrip_no_space].
  destruct s as [|c s]; simpl in *; [done|].
  apply orb_false_elim in Hs as [-> _]. done.
Qed.

Lemma join_docs_plain (l : list string) :
  l ≠ [] → Forall plain_char l → join_docs "" l = Some (PyStr.join "" l).
Proof.
  intros Hne Hl. unfold join_docs. rewrite (strip_no_space _ (has_space_join l Hl)).
  destruct Hl as [|d l Hd Hl]; [done|].
  by destruct (join_plain_cons d l Hd) as (c & _ & ->).
Qed.

(** The [while] loop on single characters: from [500 + m] of them it
    drops the first [m]. *)
Lemma shrink_plain (m : nat) :
  ∀ current_doc,
    Forall plain_char current_doc →
    length current_doc = (500 + m)%nat →
    (m ≤ 1500)%nat →
    shrink 2000 500 "" 1 current_doc (Z.of_nat (500 + m))
    = Some (drop m current_doc, 500).
Proof.
  induction m as [|m IH]; intros current_doc Hplain Hlen Hm.
  - destruct current_doc as [|first rest]; [done|].
    cbn [shrink]. rewrite !sep_if_empty.
    replace (Z.of_nat (500 + 0)) with 500 by lia. by rewrite drop_0.
  - destruct current_doc as [|first rest]; [done|].
    cbn [shrink]. rewrite !sep_if_empty.
    assert ((Z.of_nat (500 + S m) >? 500) = true) as -> by (apply Z.gtb_lt; lia).
    cbn [orb]. apply Forall_cons in Hplain as [Hfirst Hrest].
    rewrite (plain_char_len _ Hfirst).
    replace (Z.of_nat (500 + S m) - (1 + 0)) with (Z.of_nat (500 + m)) by lia.
    simpl in Hlen. rewrite IH; [done|done|lia|lia].
Qed.

(** One pass of the [for] loop with a full window: the window is
    emitted and its last 500 characters stay for the next one. *)
Lemma merge_step_full (d : string) (rest docs current_doc : list string) :
  plain_char d → Forall plain_char current_doc → length current_doc = 2000%nat →
  merge_loop 2000 500 "" (d :: rest) docs current_doc 2000
  = merge_loop 2000 500 "" rest (docs ++ [PyStr.join "" current_doc])
      (drop 1500 current_doc ++ [d]) 501.
Proof.
  intros Hd Hplain Hlen. cbn [merge_loop].
  rewrite !sep_if_empty, (plain_char_len d Hd), Hlen.
  change ((2000 + 1 + 0 >? 2000) && (0 <? 2000)%nat) with true. cbv iota.
  rewrite join_docs_plain by (done || by destruct current_doc).
  pose proof (shrink_plain 1500 current_doc Hplain Hlen (le_n _)) as Hshrink.
  change (Z.of_nat (500 + 1500)) with 2000 in Hshrink.
  rewrite Hshrink. cbn [mbind option_bind option_list].
  rewrite sep_if_empty. done.
Qed.

(** One pass with room left in the window. *)
Lemma merge_step_room (d : string) (rest docs current_doc : list string) :
  plain_char d → (length current_doc < 2000)%nat →
  merge_loop 2000 500 "" (d :: rest) docs current_doc (Z.of_nat (length current_doc))
  = merge_loop 2000 500 "" rest docs (current_doc ++ [d])
      (Z.of_nat (length current_doc + 1)).
Proof.
  intros Hd Hlen. cbn [merge_loop].
  rewrite !sep_if_empty, (plain_char_len d Hd).
  assert ((Z.of_nat (length current_doc) + 1 + 0 >? 2000) = false) as ->.
  { rewrite Z.gtb_ltb. apply Z.ltb_ge. lia. }
  cbn [andb mbind option_bind]. rewrite sep_if_empty. f_equal. lia.
Qed.

Lemma window_count_last (L k : nat) :
  (0 < L)%nat → (L ≤ 1500 * k + 2000)%nat → (k = 0 ∨ 1500 * k + 501 ≤ L)%nat →
  window_count L = S k.
Proof.
  intros Hpos Hup Hlow. unfold window_count.
  destruct (Nat.eqb_spec L 0); [lia|].
  destruct (Nat.leb_spec L 2000).
  - destruct Hlow as [->|?]; [done|]. destruct k; [done|lia].
  - destruct Hlow as [->|Hlow]; [lia|].
    apply Nat.le_antisymm.
    + apply Nat.lt_succ_r, Nat.Div0.div_lt_upper_bound; lia.
    + apply Nat.div_le_lower_bound; lia.
Qed.

Lemma window_count_more (L k : nat) :
  (1500 * k + 2001 ≤ L)%nat → (S k < window_count L)%nat.
Proof.
  intros Hlow. unfold window_count.
  destruct (Nat.eqb_spec L 0); [lia|].
  destruct (Nat.leb_spec L 2000); [lia|].
  apply (Nat.div_le_lower_bound _ 1500 (S (S k))); lia.
Qed.

(** The loop invariant of [_merge_splits] on single characters: with
    [pre] read and [rest] to go, the loop is in window [k], which starts
    at [1500 * k], holds what was read from there on, and it will emit
    the windows from [k] to the last. *)
Lemma merge_loop_plain (all : list string) :
  Forall plain_char all →
  ∀ rest pre k docs,
    all = pre ++ rest →
    (1500 * k ≤ length pre)%nat →
    (length pre ≤ 1500 * k + 2000)%nat →
    (k = 0 ∨ 1500 * k + 501 ≤ length pre)%nat →
    merge_loop 2000 500 "" rest docs (drop (1500 * k) pre)
      (Z.of_nat (length pre - 1500 * k))
    = Some (docs ++ ((λ j, PyStr.join "" (take 2000 (drop (1500 * j) all)))
                     <$> seq k (window_count (length all) - k))).
Proof.
  intros Hall rest.
  induction rest as [|d rest IH]; intros pre k docs -> Hlow Hup Hk.
  - rewrite app_nil_r in *. cbn [merge_loop].
    destruct pre as [|c pre].
    + assert (k = 0%nat) as -> by (simpl in Hlow; lia). done.
    + set (l := c :: pre) in *.
      assert (0 < length l)%nat as Hpos by (simpl; lia).
      rewrite (window_count_last _ k Hpos Hup Hk).
      replace (S k - k)%nat with 1%nat by lia. cbn [seq fmap list_fmap].
      rewrite (take_ge (drop (1500 * k) l)) by (rewrite length_drop; lia).
      rewrite join_docs_plain; [done| |by apply Forall_drop].
      intros Hnil. apply (f_equal length) in Hnil.
      rewrite length_drop in Hnil. cbn [length] in Hnil. lia.
  - apply Forall_app in Hall as Hall'. destruct Hall' as [Hpre Hrest].
    apply Forall_cons in Hrest as [Hd Hrest].
    assert (Forall plain_char (drop (1500 * k) pre)) as Hcur by by apply Forall_drop.
    assert (length (drop (1500 * k) pre) = (length pre - 1500 * k)%nat) as Hlen
      by apply length_drop.
    destruct (decide (length pre = 1500 * k + 2000)%nat) as [Hfull|Hroom].
    + replace (Z.of_nat (length pre - 1500 * k)) with 2000 by lia.
      rewrite merge_step_full by (done || lia).
      specialize (IH (pre ++ [d]) (S k) (docs ++ [PyStr.join "" (drop (1500 * k) pre)])).
      rewrite length_app in IH. cbn [length] in IH.
      replace (drop (1500 * S k) (pre ++ [d]))
        with (drop 1500 (drop (1500 * k) pre) ++ [d]) in IH.
      2:{ rewrite drop_drop, drop_app_le by lia. do 2 f_equal. lia. }
      replace (Z.of_nat (length pre + 1 - 1500 * S k)) with 501 in IH by lia.
      rewrite IH; [|by rewrite <- app_assoc|lia|lia|lia].
      rewrite <- app_assoc. do 2 f_equal.
      pose proof (window_count_more (length (pre ++ d :: rest)) k) as Hmore.
      rewrite length_app in Hmore. cbn [length] in Hmore.
      specialize (Hmore ltac:(lia)).
      rewrite length_app. cbn [length].
      replace (window_count (length pre + S (length rest)) - k)%nat
        with (S (window_count (length pre + S (length rest)) - S k)) by lia.
      cbn [seq fmap list_fmap app]. f_equal.
      rewrite drop_app_le by lia.
      by rewrite take_app_length' by lia.
    + rewrite <- Hlen. rewrite merge_step_room by (done || lia).
      specialize (IH (pre ++ [d]) k docs).
      rewrite length_app in IH. cbn [length] in IH.
      rewrite drop_app_le in IH by lia.
      replace (Z.of_nat (length pre + 1 - 1500 * k))
        with (Z.of_nat (length (drop (1500 * k) pre) + 1)) in IH by lia.
      rewrite IH; [done|by rewrite <- app_assoc|lia|lia|lia].
Qed.

(** A separator that starts with a whitespace character does not occur
    in a text without whitespace. *)
Lemma contains_space (c : ascii) (sub text : string) :
  PyStr.isspace c = true → has_space text = false →
  PyStr.contains (String c sub) text = false.
Proof.
  intros Hc. induction text as [|a text IH]; intros Htext; [done|].
  simpl in Htext. apply orb_false_elim in Htext as [Ha Htext].
  cbn [PyStr.contains]. rewrite (IH Htext), orb_false_r.
  simpl. destruct (ascii_dec c a) as [->|]; [congruence|done].
Qed.

Lemma split_chars (text : string) :
  split_text_with_regex text "" = PyStr.chars text.
Proof.
  unfold split_text_with_regex. cbn [String.eqb].
  induction text as [|c text IH]; [done|].
  cbn [PyStr.chars]. rewrite filter_cons, IH. by case_decide.
Qed.

(** When every piece is shorter than the chunk size, [_split_text] hands
    all of them to [_merge_splits] at once. *)
Lemma split_loop_short (chunk_size chunk_overlap : Z)
    (recurse : option (string → option (list string))) (splits : list string) :
  Forall (λ piece, len piece < chunk_size) splits →
  ∀ good_splits,
    split_loop chunk_size chunk_overlap recurse splits [] good_splits
    = merge_splits chunk_size chunk_overlap "" (good_splits ++ splits).
Proof.
  induction 1 as [|piece splits Hpiece _ IH]; intros good_splits.
  - rewrite app_nil_r. cbn [split_loop].
    destruct good_splits as [|g good_splits]; [done|].
    by destruct (merge_splits _ _ _ _).
  - cbn [split_loop]. apply Z.ltb_lt in Hpiece. rewrite Hpiece.
    by rewrite IH, <- app_assoc.
Qed.

(** The scan of [_split_text] passes over a separator that is absent. *)
Lemma split_text_absent (chunk_size chunk_overlap : Z) (sep next : string)
    (others : list string) (text : string) :
  sep ≠ "" → PyStr.contains sep text = false →
  _split_text chunk_size chunk_overlap (sep :: next :: others) text
  = _split_text chunk_size chunk_overlap (next :: others) text.
Proof.
  intros Hsep Habsent. cbn [_split_text].
  apply String.eqb_neq in Hsep. by rewrite Hsep, Habsent.
Qed.

Lemma split_text_plain (text : string) :
  has_space text = false →
  split_text 2000 500 text = merge_splits 2000 500 "" (PyStr.chars text).
Proof.
  intros Htext. unfold split_text, separators.
  rewrite split_text_absent;
    [|done|exact (contains_space (ascii_of_nat 10) PyStr.LF text eq_refl Htext)].
  rewrite split_text_absent;
    [|done|exact (contains_space (ascii_of_nat 10) "" text eq_refl Htext)].
  rewrite split_text_absent;
    [|done|exact (contains_space (ascii_of_nat 32) "" text eq_refl Htext)].
  cbn [_split_text String.eqb]. rewrite split_chars.
  apply (split_loop_short 2000 500 None (PyStr.chars text)).
  eapply Forall_impl; [by apply chars_plain|].
  intros d Hd. by rewrite (plain_char_len d Hd).
Qed.

(** On a text without whitespace the splitter's pieces are the windows. *)
Lemma split_text_windows (text : string) :
  has_space text = false →
  split_text 2000 500 text = Some (windows text (window_count (String.length text))).
Proof.
  intros Htext. rewrite (split_text_plain text Htext). unfold merge_splits.
  pose proof (merge_loop_plain (PyStr.chars text) (chars_plain text Htext)
                (PyStr.chars text) [] 0%nat [] eq_refl) as Hloop.
  rewrite Nat.mul_0_r in Hloop. cbn [length drop Nat.sub] in Hloop.
  change (Z.of_nat 0) with 0 in Hloop.
  rewrite Hloop by lia. rewrite app_nil_l, Nat.sub_0_r, length_chars.
  f_equal. apply list_fmap_ext. intros _ j _. apply join_chars_take_drop.
Qed.

Lemma window_count_start (L k : nat) : (k < window_count L)%nat → (1500 * k < L)%nat.
Proof.
  unfold window_count.
  destruct (Nat.eqb_spec L 0); [lia|].
  destruct (Nat.leb_spec L 2000); [lia|].
  pose proof (Nat.Div0.mul_div_le (L - 500 + 1499) 1500). lia.
Qed.

Lemma window_count_full (L k : nat) :
  (S k < window_count L)%nat → (1500 * k + 2000 ≤ L)%nat.
Proof.
  unfold window_count.
  destruct (Nat.eqb_spec L 0); [lia|].
  destruct (Nat.leb_spec L 2000); [lia|].
  pose proof (Nat.Div0.mul_div_le (L - 500 + 1499) 1500). lia.
Qed.

Lemma substring_min (s : string) :
  ∀ p m, String.substring p (m `min` (String.length s - p)) s = String.substring p m s.
Proof.
  induction s as [|c s IH]; intros p m.
  - destruct p, m; done.
  - destruct p as [|p]; [|apply IH].
    destruct m as [|m]; [done|].
    cbn [String.length Nat.sub Nat.min String.substring]. f_equal.
    rewrite <- (IH 0%nat m). by rewrite Nat.sub_0_r.
Qed.

(** [find] places window [k] at [1500 * k]. *)
Lemma find_window (text : string) (k : nat) :
  (1500 * k < String.length text)%nat →
  PyStr.find text (window text k) (Z.of_nat (1500 * k)) = Z.of_nat (1500 * k).
Proof.
  intros Hk. unfold window. apply find_at.
  - apply substring_empty; lia.
  - rewrite length_substring. apply substring_min.
Qed.

(** The start indices of the windows from [k] on, when the search for
    window [k] starts at [1500 * k]. *)
Lemma index_chunks_windows (text : string) (meta : gmap string meta_value) (m : nat) :
  ∀ k index previous_chunk_len,
    (k + m ≤ window_count (String.length text))%nat →
    ((0 < m)%nat → Z.max 0 (index + previous_chunk_len - 500) = Z.of_nat (1500 * k)) →
    index_chunks 500 text meta (window text <$> seq k m) index previous_chunk_len
    = (λ j, {| page_content := window text j;
               metadata := <["start_index" := MInt (Z.of_nat (1500 * j))]> meta |})
      <$> seq k m.
Proof.
  induction m as [|m IH]; intros k index previous_chunk_len Hk Hstart; [done|].
  cbn [seq fmap list_fmap index_chunks].
  pose proof (window_count_start (String.length text) k ltac:(lia)) as Hlt.
  rewrite (Hstart ltac:(lia)), (find_window text k Hlt). f_equal.
  apply IH; [lia|]. intros Hm.
  pose proof (window_count_full (String.length text) k ltac:(lia)) as Hfull.
  unfold len, window. rewrite length_substring. lia.
Qed.

End SplitterFacts.

Lemma window_count_claimed (L : nat) :
  (0 < L)%nat → TextSplitter.window_count L = TextSplitter.claimed_count L.
Proof.
  intros Hpos. unfold TextSplitter.window_count, TextSplitter.claimed_count.
  destruct (Nat.eqb_spec L 0); [lia|].
  destruct (Nat.leb_spec L 2000) as [Hle|Hgt], (Nat.ltb_spec L 2000) as [Hlt|Hge];
    [done| |lia|done].
  by replace L with 2000%nat by lia.
Qed.

(** [C3], for the documents it holds for: a non-empty document without
    any whitespace character, of length [L], is cut into exactly
    [ceil((L - 500) / 1500)] chunks, and into exactly one below 2000
    characters; the chunks are the windows of 2000 characters at the
    offsets 0, 1500, 3000, ..., each recorded as the chunk's
    [start_index].  So 3000 such characters give two chunks at 0 and 1500,
    and 1000 give one chunk at 0. *)
Theorem C3_chunks_of_text_without_whitespace (doc : Document) :
  TextSplitter.has_space (page_content doc) = false →
  page_content doc ≠ "" →
  ∃ chunks,
    TextSplitter.text_splitter [doc] = Some chunks
    ∧ length chunks = TextSplitter.claimed_count (String.length (page_content doc))
    ∧ page_content <$> chunks = TextSplitter.windows (page_content doc) (length chunks)
    ∧ TextSplitter.start_indices chunks
      = (λ k, Some (MInt (1500 * Z.of_nat k))) <$> seq 0 (length chunks)
    ∧ (String.length (page_content doc) = 3000%nat →
       TextSplitter.start_indices chunks = [Some (MInt 0); Some (MInt 1500)])
    ∧ (String.length (page_content doc) = 1000%nat →
       TextSplitter.start_indices chunks = [Some (MInt 0)]).
Proof.
  intros Hspace Hne.
  set (text := page_content doc) in *.
  set (n := TextSplitter.window_count (String.length text)).
  assert (0 < String.length text)%nat as Hpos.
  { destruct text; [done|simpl; lia]. }
  set (mk := λ j : nat,
         {| page_content := TextSplitter.window text j;
            metadata := <["start_index" := MInt (Z.of_nat (1500 * j))]> (metadata doc) |}).
  assert (TextSplitter.text_splitter [doc] = Some (mk <$> seq 0 n)) as Hsplit.
  { unfold TextSplitter.text_splitter. cbn [TextSplitter.split_documents].
    fold text. rewrite (split_text_windows text Hspace). fold n.
    cbn [mbind option_bind]. unfold TextSplitter.windows.
    rewrite (index_chunks_windows text (metadata doc) n 0 0 0); [|lia|done].
    by rewrite app_nil_r. }
  assert (length (mk <$> seq 0 n) = TextSplitter.claimed_count (String.length text))
    as Hcount.
  { rewrite length_fmap, length_seq. by apply window_count_claimed. }
  assert (TextSplitter.start_indices (mk <$> seq 0 n)
          = (λ k, Some (MInt (1500 * Z.of_nat k))) <$> seq 0 n) as Hstarts.
  { unfold TextSplitter.start_indices. rewrite <- list_fmap_compose.
    apply list_fmap_ext. intros _ j _. unfold mk. cbn [compose metadata].
    rewrite lookup_insert_eq. do 2 f_equal. lia. }
  exists (mk <$> seq 0 n).
  split; [exact Hsplit|]. split; [exact Hcount|].
  split.
  { rewrite <- list_fmap_compose, length_fmap, length_seq. done. }
  split.
  { by rewrite Hstarts, length_fmap, length_seq. }
  rewrite Hstarts. rewrite length_fmap, length_seq in Hcount.
  split; intros HL; rewrite HL in Hcount; rewrite Hcount; reflexivity.
Qed.

Lemma C3_chunks_of_text_without_whitespace_witness :
  TextSplitter.has_space (page_content Scenario.three_thousand_a) = false
  ∧ page_content Scenario.three_thousand_a ≠ ""
  ∧ ∃ chunks,
      TextSplitter.text_splitter [Scenario.three_thousand_a] = Some chunks
      ∧ length chunks
        = TextSplitter.claimed_count (String.length (page_content Scenario.three_thousand_a))
      ∧ page_content <$> chunks
        = TextSplitter.windows (page_content Scenario.three_thousand_a) (length chunks)
      ∧ TextSplitter.start_indices chunks
        = (λ k, Some (MInt (1500 * Z.of_nat k))) <$> seq 0 (length chunks)
      ∧ (String.length (page_content Scenario.three_thousand_a) = 3000%nat →
         TextSplitter.start_indices chunks = [Some (MInt 0); Some (MInt 1500)])
      ∧ (String.length (page_content Scenario.three_thousand_a) = 1000%nat →
         TextSplitter.start_indices chunks = [Some (MInt 0)]).
Proof.
  assert (TextSplitter.has_space (page_content Scenario.three_thousand_a) = false)
    as Hspace by (vm_compute; reflexivity).
  assert (page_content Scenario.three_thousand_a ≠ "") as Hne
    by (vm_compute; discriminate).
  split; [exact Hspace|]. split; [exact Hne|].
  exact (C3_chunks_of_text_without_whitespace Scenario.three_thousand_a Hspace Hne).
Defined.

(** [C3] as stated fails on two kinds of document.  An empty document has
    fewer than 2000 characters and yields no chunk at all, not one.  The
    3003 characters of [three_blocks] yield three chunks, one per block, at
    the offsets 0, 1002 and 2003, where the formula gives two. *)
Lemma C3_empty_and_spaced_documents :
  TextSplitter.text_splitter [TextSplitter.plain_document ""] = Some []
  ∧ (length <$> TextSplitter.text_splitter [TextSplitter.plain_document ""])
    ≠ Some (TextSplitter.claimed_count (String.length ""))
  ∧ String.length TextSplitter.three_blocks = 3003%nat
  ∧ (TextSplitter.start_indices
     <$> TextSplitter.text_splitter [TextSplitter.plain_document TextSplitter.three_blocks])
    = Some [Some (MInt 0); Some (MInt 1002); Some (MInt 2003)]
  ∧ (length
     <$> TextSplitter.text_splitter [TextSplitter.plain_document TextSplitter.three_blocks])
    ≠ Some (TextSplitter.claimed_count (String.length TextSplitter.three_blocks)).
Proof.
  split; [vm_compute; reflexivity|].
  split; [vm_compute; discriminate|].
  split; [vm_compute; reflexivity|].
  split; [vm_compute; reflexivity|].
  vm_compute; discriminate.
Qed.

(** The recorded run agrees: whatever the lengths of the 698 documents,
    as long as they add up to the recorded number of characters, the
    claimed counts add up to fewer chunks than the run produced. *)
Lemma recorded_run_exceeds_claimed_count (lengths : list nat) :
  length lengths = TextSplitter.recorded_documents →
  Z.of_nat (sum_list lengths) = TextSplitter.recorded_characters →
  Z.of_nat (sum_list (TextSplitter.claimed_count <$> lengths)) < TextSplitter.recorded_chunks.
Proof.
  assert (∀ l : list nat,
            (1500 * sum_list (TextSplitter.claimed_count <$> l)
             ≤ sum_list l + 1500 * length l)%nat) as Hbound.
  { induction l as [|L l IH]; [cbn [fmap list_fmap sum_list sum_list_with length]; lia|].
    change (sum_list (TextSplitter.claimed_count <$> L :: l))
      with (TextSplitter.claimed_count L
            + sum_list (TextSplitter.claimed_count <$> l))%nat.
    change (sum_list (L :: l)) with (L + sum_list l)%nat.
    change (length (L :: l)) with (S (length l)).
    assert (1500 * TextSplitter.claimed_count L ≤ L + 1500)%nat; [|lia].
    unfold TextSplitter.claimed_count. destruct (Nat.ltb_spec L 2000); [lia|].
    pose proof (Nat.Div0.mul_div_le (L - 500 + 1499) 1500). lia. }
  intros Hlen Hsum. specialize (Hbound lengths).
  unfold TextSplitter.recorded_documents, TextSplitter.recorded_characters,
    TextSplitter.recorded_chunks in *.
  rewrite Hlen in Hbound. lia.
Qed.

(** * Further properties of the cells *)

(** ** The corpus loader: failure, composition, file selection *)

Section CorpusMore.

Import Corpus.

Lemma load_folder_Some_inv fs folder entries :
  ∀ docs out, load_folder fs folder entries docs = Some out →
    Forall (λ file, PyStr.endswith file ".txt" = true →
                    is_Some (fs_text fs !! (folder +:+ file))) entries.
Proof.
  induction entries as [|file entries IH]; intros docs out Hload; [constructor|].
  cbn [load_folder] in Hload.
  destruct (PyStr.endswith file ".txt") eqn:Htxt.
  - destruct (fs_text fs !! (folder +:+ file)) as [content|] eqn:Hcontent;
      [|discriminate Hload].
    constructor; [by eauto|]. eapply IH. exact Hload.
  - constructor; [by rewrite Htxt|]. eapply IH. exact Hload.
Qed.

Lemma load_folders_Some_inv fs dirs :
  ∀ docs out, load_folders fs dirs docs = Some out → Forall (loadable fs) dirs.
Proof.
  induction dirs as [|folder dirs IH]; intros docs out Hload; [constructor|].
  cbn [load_folders] in Hload.
  destruct (fs_listdir fs !! folder) as [entries|] eqn:Hlist; [|discriminate Hload].
  cbn [mbind option_bind] in Hload.
  destruct (load_folder fs folder entries docs) as [docs'|] eqn:Hfolder;
    [|discriminate Hload].
  constructor; [|eapply IH; exact Hload].
  exists entries. split; [done|]. eapply load_folder_Some_inv. exact Hfolder.
Qed.

Lemma load_folder_acc fs folder entries :
  ∀ docs, load_folder fs folder entries docs
          = (λ new, docs ++ new) <$> load_folder fs folder entries [].
Proof.
  induction entries as [|file entries IH]; intros docs.
  - simpl. by rewrite app_nil_r.
  - cbn [load_folder]. destruct (PyStr.endswith file ".txt"); [|apply IH].
    destruct (fs_text fs !! (folder +:+ file)) as [content|]; [|done].
    cbn [mbind option_bind]. rewrite IH, (IH ([] ++ _)).
    destruct (load_folder fs folder entries []) as [new|]; [|done].
    simpl. by rewrite <- app_assoc.
Qed.

Lemma load_folders_acc fs dirs :
  ∀ docs, load_folders fs dirs docs = (λ new, docs ++ new) <$> load_folders fs dirs [].
Proof.
  induction dirs as [|folder dirs IH]; intros docs.
  - simpl. by rewrite app_nil_r.
  - cbn [load_folders]. destruct (fs_listdir fs !! folder) as [entries|]; [|done].
    cbn [mbind option_bind]. rewrite load_folder_acc, (load_folder_acc _ _ _ []).
    destruct (load_folder fs folder entries []) as [new|]; [|done].
    cbn [fmap option_fmap option_map mbind option_bind].
    rewrite IH, (IH ([] ++ new)).
    destruct (load_folders fs dirs []) as [new'|]; [|done].
    simpl. by rewrite <- app_assoc.
Qed.

Lemma load_folders_app fs dirs1 dirs2 :
  ∀ docs, load_folders fs (dirs1 ++ dirs2) docs
          = load_folders fs dirs1 docs ≫= load_folders fs dirs2.
Proof.
  induction dirs1 as [|folder dirs1 IH]; intros docs; [done|].
  cbn [app load_folders]. destruct (fs_listdir fs !! folder) as [entries|]; [|done].
  cbn [mbind option_bind].
  destruct (load_folder fs folder entries docs) as [docs'|]; [|done].
  apply IH.
Qed.

End CorpusMore.

(** [X1] The corpus load is all or nothing: it returns the documents
    exactly when every directory can be listed and every entry ending in
    [.txt] can be read; one unreadable text file or one missing directory
    makes the whole cell fail, whatever was loaded before it.  An entry of
    another kind is never opened. *)
Theorem X1_corpus_load_all_or_nothing (fs : FileSystem) (dirs : list string) :
  is_Some (Corpus.legalbench_rag_retrieval_docs fs dirs)
  ↔ Forall (Corpus.loadable fs) dirs.
Proof.
  split.
  - intros [docs Hdocs]. eapply load_folders_Some_inv. exact Hdocs.
  - intros Hdirs. destruct (load_folders_spec fs dirs [] Hdirs) as (docs & Hload & _).
    by exists docs.
Qed.

(** [X2] Loading a list of directories is loading its parts one after the
    other: the documents of [dirs1 ++ dirs2] are those of [dirs1] followed
    by those of [dirs2].  In particular a directory named twice is loaded
    twice. *)
Theorem X2_corpus_load_composes (fs : FileSystem) (dirs1 dirs2 : list string) :
  Corpus.legalbench_rag_retrieval_docs fs (dirs1 ++ dirs2)
  = (docs1 ← Corpus.legalbench_rag_retrieval_docs fs dirs1;
     docs2 ← Corpus.legalbench_rag_retrieval_docs fs dirs2;
     Some (docs1 ++ docs2)).
Proof.
  unfold Corpus.legalbench_rag_retrieval_docs. rewrite load_folders_app.
  destruct (Corpus.load_folders fs dirs1 []) as [docs1|]; [|done].
  cbn [mbind option_bind]. rewrite load_folders_acc.
  by destruct (Corpus.load_folders fs dirs2 []).
Qed.

Section SuffixFacts.

Lemma length_app_string (a b : string) :
  String.length (a +:+ b) = (String.length a + String.length b)%nat.
Proof. induction a as [|c a IH]; [done|]. rewrite app_cons. simpl. by rewrite IH. Qed.





End SuffixFacts.


(** ** The benchmark loader: content and failure *)

Section BenchmarkMore.

Import Benchmark.


End BenchmarkMore.

(** [X4] From benchmark files of the documented shape the loader builds
    one record per test, file after file and test after test: the record's
    query is the test's query, and its answers are the test's snippets in
    order, each as the snippet's answer, a line feed, [Source: ] and the
    snippet's file path.  A test without snippets gives a record with an
    empty answer list. *)
Theorem X4_benchmark_records_content (fs : FileSystem) (paths : list string)
    (files : list (list Benchmark.Test)) :
  Forall2 (Benchmark.benchmark_at fs) paths files →
  ∃ qa,
    Benchmark.legalbench_rag_qa fs paths = Some qa
    ∧ length qa = length (concat files)
    ∧ qa_query <$> qa = Benchmark.test_query <$> concat files
    ∧ qa_answers <$> qa
      = (λ t, (λ s, Benchmark.answer s +:+ PyStr.LF +:+ "Source: "
                    +:+ Benchmark.file_path s)
              <$> Benchmark.snippets t)
        <$> concat files.
Proof.
  intros Hfiles. eexists. split; [by apply legalbench_rag_qa_spec|].
  split; [apply length_imap|].
  split; rewrite fmap_imap; apply imap_const.
Qed.

Lemma X4_benchmark_records_content_witness :
  Forall2 (Benchmark.benchmark_at Scenario.small_benchmark_fs) ["b.json"]
    [Scenario.small_benchmark]
  ∧ ∃ qa,
      Benchmark.legalbench_rag_qa Scenario.small_benchmark_fs ["b.json"] = Some qa
      ∧ length qa = length (concat [Scenario.small_benchmark])
      ∧ qa_query <$> qa = Benchmark.test_query <$> concat [Scenario.small_benchmark]
      ∧ qa_answers <$> qa
        = (λ t, (λ s, Benchmark.answer s +:+ PyStr.LF +:+ "Source: "
                      +:+ Benchmark.file_path s)
                <$> Benchmark.snippets t)
          <$> concat [Scenario.small_benchmark].
Proof.
  assert (Forall2 (Benchmark.benchmark_at Scenario.small_benchmark_fs) ["b.json"]
            [Scenario.small_benchmark]) as Hfiles.
  { constructor; [|constructor].
    eexists. split; [reflexivity|].
    eexists. split; [reflexivity|].
    constructor; [|constructor; [|constructor]].
    - split; [reflexivity|]. eexists. split; [reflexivity|].
      constructor; [|constructor]. split; reflexivity.
    - split; [reflexivity|]. eexists. split; [reflexivity|]. constructor. }
  split; [exact Hfiles|].
  exact (X4_benchmark_records_content Scenario.small_benchmark_fs ["b.json"]
           [Scenario.small_benchmark] Hfiles).
Defined.



(** ** The text splitter on arbitrary documents *)

Section StripFacts.

Lemma lstrip_head (s : string) :
  PyStr.lstrip s = "" ∨ ∃ c t, PyStr.lstrip s = String c t ∧ PyStr.isspace c = false.
Proof.
  induction s as [|c s IH]; [by left|]. simpl.
  destruct (PyStr.isspace c) eqn:Hc; [exact IH|]. right. by exists c, s.
Qed.

Lemma rstrip_rstrip (s : string) : PyStr.rstrip (PyStr.rstrip s) = PyStr.rstrip s.
Proof.
  induction s as [|c s IH]; [done|]. cbn [PyStr.rstrip].
  destruct (PyStr.rstrip s) as [|d t] eqn:Hs.
  - destruct (PyStr.isspace c) eqn:Hc; [done|]. simpl. by rewrite Hc.
  - cbn [PyStr.rstrip]. cbn [PyStr.rstrip] in IH.
    destruct (PyStr.rstrip t) as [|e u]; [|by rewrite IH].
    destruct (PyStr.isspace d); [done|]. by rewrite IH.
Qed.

Lemma lstrip_rstrip (c : ascii) (t : string) :
  PyStr.isspace c = false →
  PyStr.lstrip (PyStr.rstrip (String c t)) = PyStr.rstrip (String c t).
Proof.
  intros Hc. cbn [PyStr.rstrip].
  destruct (PyStr.rstrip t); [rewrite Hc|]; simpl; by rewrite Hc.
Qed.

Lemma strip_strip (s : string) : PyStr.strip (PyStr.strip s) = PyStr.strip s.
Proof.
  unfold PyStr.strip.
  destruct (lstrip_head s) as [->|(c & t & -> & Hc)]; [done|].
  by rewrite (lstrip_rstrip c t Hc), rstrip_rstrip.
Qed.

End StripFacts.

Section SplitterTotal.

Import TextSplitter Notions.

Variables (chunk_size chunk_overlap : Z).
Hypothesis overlap_nonneg : 0 ≤ chunk_overlap.
Hypothesis size_above_one : 1 < chunk_size.

Lemma sumlen_app (l1 l2 : list string) : sumlen (l1 ++ l2) = sumlen l1 + sumlen l2.
Proof. induction l1 as [|x l1 IH]; simpl; [done|]. rewrite IH. lia. Qed.

Lemma join_docs_trimmed (separator : string) (docs : list string) (text : string) :
  join_docs separator docs = Some text → trimmed text.
Proof.
  unfold join_docs. destruct (String.eqb_spec (PyStr.strip (PyStr.join separator docs)) "")
    as [|Hne]; [done|].
  intros [= <-]. split; [done|apply strip_strip].
Qed.

Lemma option_list_trimmed (separator : string) (docs : list string) :
  Forall trimmed (option_list (join_docs separator docs)).
Proof.
  destruct (join_docs separator docs) as [text|] eqn:Hjoin; [|constructor].
  constructor; [|constructor]. by eapply join_docs_trimmed.
Qed.

(** The [while] loop never runs out of splits to drop: the running total
    is the length of what [current_doc] holds, so it is zero, and the
    loop over, by the time the list is empty. *)
Lemma shrink_total (_len : Z) (current_doc : list string) :
  ∃ rest, shrink chunk_size chunk_overlap "" _len current_doc (sumlen current_doc)
          = Some (rest, sumlen rest).
Proof.
  induction current_doc as [|first current_doc IH].
  - exists []. cbn [shrink sumlen foldr].
    assert ((0 >? chunk_overlap) = false) as ->; [|by rewrite andb_false_r].
    rewrite Z.gtb_ltb. apply Z.ltb_ge. lia.
  - cbn [shrink]. rewrite !sep_if_empty.
    destruct (_ || _).
    + destruct IH as [rest Hrest]. exists rest. rewrite <- Hrest. f_equal.
      change (sumlen (first :: current_doc)) with (len first + sumlen current_doc). lia.
    + by exists (first :: current_doc).
Qed.

Lemma merge_loop_total (splits : list string) :
  ∀ docs current_doc,
    Forall trimmed docs →
    ∃ out, merge_loop chunk_size chunk_overlap "" splits docs current_doc
             (sumlen current_doc) = Some out
           ∧ Forall trimmed out.
Proof.
  induction splits as [|d splits IH]; intros docs current_doc Hdocs.
  - eexists. split; [reflexivity|].
    apply Forall_app. split; [done|apply option_list_trimmed].
  - cbn [merge_loop]. rewrite !sep_if_empty.
    assert (∀ cur, sumlen cur + len d + 0 = sumlen (cur ++ [d])) as Hstep.
    { intros cur. rewrite sumlen_app. change (sumlen [d]) with (len d + 0). lia. }
    destruct (_ && _).
    + destruct (shrink_total (len d) current_doc) as [rest ->].
      cbn [mbind option_bind]. rewrite sep_if_empty, Hstep.
      apply IH. apply Forall_app. split; [done|apply option_list_trimmed].
    + cbn [mbind option_bind]. rewrite sep_if_empty, Hstep. by apply IH.
Qed.

Lemma merge_splits_total (splits : list string) :
  ∃ out, merge_splits chunk_size chunk_overlap "" splits = Some out ∧ Forall trimmed out.
Proof. apply (merge_loop_total splits [] []). constructor. Qed.

Lemma split_loop_total (recurse : option (string → option (list string)))
    (splits : list string) :
  recurse_ok recurse →
  (recurse = None → Forall (λ piece, len piece < chunk_size) splits) →
  ∀ final_chunks good_splits,
    Forall trimmed final_chunks →
    ∃ out, split_loop chunk_size chunk_overlap recurse splits final_chunks good_splits
           = Some out
           ∧ Forall trimmed out.
Proof.
  intros Hrec. induction splits as [|s splits IH];
    intros Hshort final_chunks good_splits Hfinal.
  - cbn [split_loop]. destruct good_splits as [|g good_splits]; [by eauto|].
    destruct (merge_splits_total (g :: good_splits)) as (merged & -> & Hmerged).
    eexists. split; [reflexivity|]. by apply Forall_app.
  - assert (recurse = None → Forall (λ piece, len piece < chunk_size) splits) as Hshort'.
    { intros Hnone. specialize (Hshort Hnone). by apply Forall_cons in Hshort as [_ ?]. }
    cbn [split_loop]. destruct (Z.ltb_spec (len s) chunk_size) as [Hlt|Hge].
    + by apply IH.
    + assert (∃ final', match good_splits with
                        | [] => Some final_chunks
                        | _ :: _ =>
                            merge_splits chunk_size chunk_overlap "" good_splits
                            ≫= λ merged, Some (final_chunks ++ merged)
                        end = Some final'
                        ∧ Forall trimmed final') as (final' & -> & Hfinal').
      { destruct good_splits as [|g good_splits]; [by eauto|].
        destruct (merge_splits_total (g :: good_splits)) as (merged & -> & Hmerged).
        eexists. split; [reflexivity|]. by apply Forall_app. }
      cbn [mbind option_bind].
      destruct recurse as [f|].
      * destruct (Hrec f eq_refl s) as (other & -> & Hother).
        cbn [mbind option_bind]. apply IH; [done|]. by apply Forall_app.
      * specialize (Hshort eq_refl). apply Forall_cons in Hshort as [Hs _]. lia.
Qed.

Lemma chars_short (text : string) :
  Forall (λ piece, len piece < chunk_size) (split_text_with_regex text "").
Proof.
  rewrite split_chars. induction text as [|c text IH]; [constructor|].
  constructor; [|exact IH]. unfold len. simpl. lia.
Qed.

(** [_split_text] with a separator list that ends in the empty separator
    never fails, and every chunk it returns is trimmed. *)
Lemma split_text_total (separators : list string) :
  last separators = Some "" →
  ∀ text, ∃ out, _split_text chunk_size chunk_overlap separators text = Some out
                 ∧ Forall trimmed out.
Proof.
  induction separators as [|_s new_separators IH]; intros Hlast text; [done|].
  cbn [_split_text]. destruct (String.eqb_spec _s "") as [->|Hne].
  - apply split_loop_total; [by intros f [=]|by intros _; apply chars_short|constructor].
  - destruct new_separators as [|next others]; [by injection Hlast|].
    specialize (IH Hlast).
    destruct (PyStr.contains _s text); [|apply IH].
    apply split_loop_total; [|by intros [=]|constructor].
    intros f [= <-] s. apply IH.
Qed.

End SplitterTotal.

Section SplitDocuments.

Import TextSplitter Notions.

Lemma index_chunks_content (chunk_overlap : Z) (text : string)
    (meta : gmap string meta_value) (chunks : list string) :
  ∀ index previous_chunk_len,
    page_content <$> index_chunks chunk_overlap text meta chunks index previous_chunk_len
    = chunks
    ∧ Forall (λ chunk, ∃ i, metadata chunk = <["start_index" := MInt i]> meta)
        (index_chunks chunk_overlap text meta chunks index previous_chunk_len).
Proof.
  induction chunks as [|chunk chunks IH]; intros index previous_chunk_len.
  - split; [done|constructor].
  - cbn [index_chunks]. edestruct IH as [Hcontent Hmeta]. split.
    + rewrite fmap_cons. f_equal. exact Hcontent.
    + constructor; [by eexists|exact Hmeta].
Qed.

Lemma split_documents_total (docs : list Document) :
  ∃ chunks,
    split_documents 2000 500 docs = Some chunks
    ∧ Forall (λ chunk, trimmed (page_content chunk) ∧ chunk_of docs chunk) chunks.
Proof.
  induction docs as [|doc docs (others & Hothers & Hall)].
  - exists []. split; [done|constructor].
  - cbn [split_documents].
    destruct (split_text_total 2000 500 ltac:(lia) ltac:(lia) separators eq_refl
                (page_content doc)) as (pieces & Hpieces & Htrim).
    unfold split_text. rewrite Hpieces, Hothers. cbn [mbind option_bind].
    eexists. split; [reflexivity|].
    destruct (index_chunks_content 500 (page_content doc) (metadata doc) pieces 0 0)
      as [Hcontent Hmeta].
    apply Forall_app. split.
    + apply Forall_forall. intros chunk Hin. split.
      * rewrite Forall_forall in Htrim. apply Htrim. rewrite <- Hcontent.
        apply list_elem_of_fmap. by exists chunk.
      * rewrite Forall_forall in Hmeta. destruct (Hmeta chunk Hin) as [i Hi].
        exists doc, i. split; [by left|done].
    + eapply Forall_impl; [exact Hall|].
      intros chunk [Htrimmed (d & i & Hd & Hi)]. split; [done|].
      exists d, i. split; [by right|done].
Qed.

Lemma split_documents_app (chunk_size chunk_overlap : Z) (docs1 docs2 : list Document) :
  split_documents chunk_size chunk_overlap (docs1 ++ docs2)
  = (chunks1 ← split_documents chunk_size chunk_overlap docs1;
     chunks2 ← split_documents chunk_size chunk_overlap docs2;
     Some (chunks1 ++ chunks2)).
Proof.
  induction docs1 as [|doc docs1 IH].
  - simpl. by destruct (split_documents _ _ docs2).
  - cbn [app split_documents]. rewrite IH.
    destruct (split_text _ _ _) as [pieces|]; [|done]. cbn [mbind option_bind].
    destruct (split_documents _ _ docs1) as [chunks1|]; [|done].
    cbn [mbind option_bind].
    destruct (split_documents _ _ docs2) as [chunks2|]; [|done].
    cbn [mbind option_bind]. by rewrite app_assoc.
Qed.

End SplitDocuments.

(** [X6] The chunking cell never fails, whatever the documents hold.
    Every chunk it returns is non-empty and neither starts nor ends with
    whitespace, and every chunk carries the metadata of a document it was
    given, with [start_index] added: after chunking, a chunk still names
    its file. *)
Theorem X6_chunking_total_trimmed_traceable (docs : list Document) :
  ∃ chunks,
    TextSplitter.legalbench_rag_chunks docs = Some chunks
    ∧ Forall (λ chunk, Notions.trimmed (page_content chunk)
                       ∧ Notions.chunk_of docs chunk) chunks.
Proof. apply split_documents_total. Qed.

(** [X7] Documents are chunked one by one: the chunks of a list of
    documents are the chunks of its first part followed by the chunks of
    the rest, so no chunk spans two documents and the order of the
    documents is the order of their chunks. *)
Theorem X7_chunking_composes (docs1 docs2 : list Document) :
  TextSplitter.legalbench_rag_chunks (docs1 ++ docs2)
  = (chunks1 ← TextSplitter.legalbench_rag_chunks docs1;
     chunks2 ← TextSplitter.legalbench_rag_chunks docs2;
     Some (chunks1 ++ chunks2)).
Proof. apply split_documents_app. Qed.

Section Overlap.

Import TextSplitter.

Lemma substring_substring (s : string) :
  ∀ q n p m, (p + m ≤ n)%nat →
    String.substring p m (String.substring q n s) = String.substring (q + p) m s.
Proof.
  induction s as [|c s IH]; intros q n p m Hle.
  - destruct q, n, p, m; done.
  - destruct q as [|q]; [|apply IH; lia].
    destruct n as [|n].
    + assert (p = 0%nat) as -> by lia. assert (m = 0%nat) as -> by lia. done.
    + cbn [String.substring Nat.add]. destruct p as [|p].
      * destruct m as [|m]; [done|]. cbn [String.substring]. f_equal.
        apply (IH 0%nat). lia.
      * cbn [String.substring]. apply (IH 0%nat). lia.
Qed.

Lemma window_count_next (L k : nat) :
  (S k < window_count L)%nat → (1500 * k + 2001 ≤ L)%nat.
Proof.
  unfold window_count.
  destruct (Nat.eqb_spec L 0); [lia|].
  destruct (Nat.leb_spec L 2000); [lia|].
  pose proof (Nat.Div0.mul_div_le (L - 500 + 1499) 1500). lia.
Qed.

(** The chunks of a document without whitespace, with their metadata. *)
Lemma plain_text_chunks (doc : Document) :
  has_space (page_content doc) = false →
  text_splitter [doc]
  = Some ((λ j, {| page_content := window (page_content doc) j;
                   metadata := <["start_index" := MInt (Z.of_nat (1500 * j))]>
                                 (metadata doc) |})
          <$> seq 0 (window_count (String.length (page_content doc)))).
Proof.
  intros Hspace. unfold text_splitter. cbn [split_documents].
  rewrite (split_text_windows _ Hspace). cbn [mbind option_bind]. unfold windows.
  rewrite (index_chunks_windows _ (metadata doc) _ 0 0 0); [|lia|done].
  by rewrite app_nil_r.
Qed.

End Overlap.

(** [X8] In a document without whitespace two chunks in a row overlap by
    500 characters: the earlier one is a full 2000 characters, its last
    500 are the first 500 of the later one, and the later one goes on for
    at least one character more. *)
Theorem X8_consecutive_chunks_overlap (doc : Document) :
  TextSplitter.has_space (page_content doc) = false →
  ∃ chunks,
    TextSplitter.legalbench_rag_chunks [doc] = Some chunks
    ∧ ∀ k c1 c2,
        chunks !! k = Some c1 → chunks !! S k = Some c2 →
        String.length (page_content c1) = 2000%nat
        ∧ String.substring 1500 500 (page_content c1)
          = String.substring 0 500 (page_content c2)
        ∧ (500 < String.length (page_content c2))%nat.
Proof.
  intros Hspace. eexists. split; [by apply plain_text_chunks|].
  intros k c1 c2 H1 H2.
  rewrite list_lookup_fmap in H1, H2.
  destruct (seq _ _ !! k) as [j1|] eqn:Hj1; [|done].
  destruct (seq _ _ !! S k) as [j2|] eqn:Hj2; [|done].
  apply lookup_seq in Hj1 as [-> _]. apply lookup_seq in Hj2 as [-> Hlt].
  injection H1 as <-. injection H2 as <-. cbn [page_content Nat.add].
  apply window_count_next in Hlt. unfold TextSplitter.window.
  rewrite !length_substring. split; [lia|]. split; [|lia].
  rewrite !substring_substring by lia. f_equal. lia.
Qed.

Lemma X8_consecutive_chunks_overlap_witness :
  TextSplitter.has_space (page_content Scenario.three_thousand_a) = false
  ∧ ∃ chunks,
      TextSplitter.legalbench_rag_chunks [Scenario.three_thousand_a] = Some chunks
      ∧ ∀ k c1 c2,
          chunks !! k = Some c1 → chunks !! S k = Some c2 →
          String.length (page_content c1) = 2000%nat
          ∧ String.substring 1500 500 (page_content c1)
            = String.substring 0 500 (page_content c2)
          ∧ (500 < String.length (page_content c2))%nat.
Proof.
  assert (TextSplitter.has_space (page_content Scenario.three_thousand_a) = false)
    as Hspace by (vm_compute; reflexivity).
  split; [exact Hspace|].
  exact (X8_consecutive_chunks_overlap Scenario.three_thousand_a Hspace).
Defined.

(** ** The batches of the vector store cell *)


(** ** The sampling cell: the indices left over, and failure *)

(** [X10] The indices kept in [available_indices] are exactly the indices
    of [range(6889)] that were not sampled; when the sample has no
    duplicate and stays below 6889, there are 6889 of them less the size
    of the sample. *)
Theorem X10_available_indices (sampled_indices : list nat) :
  NoDup sampled_indices →
  Forall (λ index, (index < 6889)%nat) sampled_indices →
  (∀ index, index ∈ Sampling.available_indices sampled_indices
            ↔ (index < 6889)%nat ∧ index ∉ sampled_indices)
  ∧ size (Sampling.available_indices sampled_indices)
    = (6889 - length sampled_indices)%nat.
Proof.
  intros Hnodup Hlt. unfold Sampling.available_indices. split.
  - intros index. rewrite elem_of_difference, !elem_of_list_to_set, elem_of_seq.
    cbn [Nat.add]. split; intros [H1 H2]; split; (lia || done).
  - rewrite size_difference.
    + rewrite !size_list_to_set by (done || apply NoDup_seq). by rewrite length_seq.
    + intros index. rewrite !elem_of_list_to_set, elem_of_seq. intros Hin.
      rewrite Forall_forall in Hlt. specialize (Hlt index Hin). cbn [Nat.add]. lia.
Qed.

Lemma X10_available_indices_witness :
  NoDup [3; 1]%nat
  ∧ Forall (λ index, (index < 6889)%nat) [3; 1]%nat
  ∧ (∀ index, index ∈ Sampling.available_indices [3; 1]%nat
              ↔ (index < 6889)%nat ∧ index ∉ [3; 1]%nat)
  ∧ size (Sampling.available_indices [3; 1]%nat) = (6889 - length [3; 1]%nat)%nat.
Proof.
  assert (NoDup [3; 1]%nat) as Hnodup.
  { apply NoDup_cons. split; [|apply NoDup_singleton].
    intros Hin. apply list_elem_of_singleton in Hin. discriminate Hin. }
  assert (Forall (λ index, (index < 6889)%nat) [3; 1]%nat) as Hlt.
  { assert (3 < 6889)%nat by (apply Nat.ltb_lt; vm_compute; reflexivity).
    assert (1 < 6889)%nat by (apply Nat.ltb_lt; vm_compute; reflexivity).
    by repeat constructor. }
  split; [exact Hnodup|]. split; [exact Hlt|].
  exact (X10_available_indices [3; 1]%nat Hnodup Hlt).
Defined.

(** [X11] The sampling cell fails in two cases only: when the generator
    cannot draw the sample, or when a sampled index lies beyond the end
    of the loaded records, as it can when fewer than 6889 were loaded. *)
Theorem X11_sampling_cell_failure (RandomState : Type) (seed : Z → RandomState)
    (sample : RandomState → nat → nat → option (list nat * RandomState))
    (rng : RandomState) (legalbench_rag_qa : list QA) :
  Sampling.sampling_cell RandomState seed sample rng legalbench_rag_qa = None
  ↔ sample (seed 100) 6889%nat 100%nat = None
    ∨ ∃ indices rng' index,
        sample (seed 100) 6889%nat 100%nat = Some (indices, rng')
        ∧ index ∈ indices ∧ (length legalbench_rag_qa ≤ index)%nat.
Proof.
  unfold Sampling.sampling_cell.
  destruct (sample (seed 100) 6889%nat 100%nat) as [[indices rng']|];
    cbn [mbind option_bind]; [|by split; [left|]].
  destruct (mapM (λ index, legalbench_rag_qa !! index) indices) as [subset|] eqn:Hmap;
    cbn [mbind option_bind].
  - split; [done|]. intros [[=]|(indices' & rng'' & index & [= <- <-] & Hin & Hge)].
    apply mapM_Some_1 in Hmap.
    apply list_elem_of_lookup in Hin as [i Hi].
    destruct (Forall2_lookup_l _ _ _ i index Hmap Hi) as (q & _ & Hq).
    apply lookup_lt_Some in Hq. lia.
  - split; [|done]. intros _. right.
    apply mapM_None_1, Exists_exists in Hmap as (index & Hin & Hnone).
    exists indices, rng', index. split; [done|]. split; [done|].
    by apply lookup_ge_None.
Qed.

(** ** The retrieval loop *)

Section LoopMore.

Variable World : Type.
Variable similarity_search : string → nat → World → list Document * World.
Variable invoke : string → World → string * World.

Lemma rag_loop_acc (subset : list QA) :
  ∀ results w,
    Pipeline.rag_loop World similarity_search invoke subset results w
    = (results ++ (Pipeline.rag_loop World similarity_search invoke subset [] w).1,
       (Pipeline.rag_loop World similarity_search invoke subset [] w).2).
Proof.
  induction subset as [|qa subset IH]; intros results w.
  - simpl. by rewrite app_nil_r.
  - cbn [Pipeline.rag_loop].
    destruct (similarity_search (qa_query qa) 10 w) as [chunks w1].
    destruct (invoke _ w1) as [content w2].
    rewrite IH, (IH ([] ++ _)). cbn [fst snd]. by rewrite <- app_assoc.
Qed.

Lemma rag_loop_app (subset1 subset2 : list QA) :
  ∀ results w,
    Pipeline.rag_loop World similarity_search invoke (subset1 ++ subset2) results w
    = let r1 := Pipeline.rag_loop World similarity_search invoke subset1 results w in
      Pipeline.rag_loop World similarity_search invoke subset2 r1.1 r1.2.
Proof.
  induction subset1 as [|qa subset1 IH]; intros results w; [done|].
  cbn [app Pipeline.rag_loop].
  destruct (similarity_search (qa_query qa) 10 w) as [chunks w1].
  destruct (invoke _ w1) as [content w2]. apply IH.
Qed.

End LoopMore.

(** [X12] The retrieval loop handles the queries strictly one after the
    other: running it on [subset1 ++ subset2] is running it on [subset1]
    and then on [subset2] in the world the first run left behind, and the
    results are those of the first run followed by those of the second.
    There is one result per query, also when the search finds nothing. *)
Theorem X12_retrieval_loop_is_sequential (World : Type)
    (similarity_search : string → nat → World → list Document * World)
    (invoke : string → World → string * World)
    (subset1 subset2 : list QA) (w : World) :
  Pipeline.results World similarity_search invoke (subset1 ++ subset2) w
  = (let first := Pipeline.results World similarity_search invoke subset1 w in
     let second := Pipeline.results World similarity_search invoke subset2 first.2 in
     (first.1 ++ second.1, second.2))
  ∧ length (Pipeline.results World similarity_search invoke (subset1 ++ subset2) w).1
    = (length subset1 + length subset2)%nat.
Proof.
  unfold Pipeline.results. split.
  - rewrite rag_loop_app. cbv zeta. by rewrite rag_loop_acc.
  - destruct (rag_loop_spec World similarity_search invoke (subset1 ++ subset2) [] w)
      as (new & -> & Hnew).
    apply Forall2_length in Hnew. by rewrite app_nil_l, Hnew, length_app.
Qed.

Section ContextFacts.

Lemma app_assoc_string (a b c : string) : a +:+ (b +:+ c) = (a +:+ b) +:+ c.
Proof. induction a as [|x a IH]; [done|]. by rewrite !app_cons, IH. Qed.

Lemma retrieved_context_acc (chunks : list Document) :
  ∀ acc,
    fold_left (λ acc context, acc +:+ page_content context +:+ PyStr.LF +:+ PyStr.LF)
      chunks acc
    = acc +:+ Pipeline.retrieved_context chunks.
Proof.
  unfold Pipeline.retrieved_context.
  induction chunks as [|chunk chunks IH]; intros acc.
  - simpl. by rewrite app_empty_r.
  - cbn [fold_left]. rewrite IH, (IH ("" +:+ _)).
    change ("" +:+ page_content chunk +:+ PyStr.LF +:+ PyStr.LF)
      with (page_content chunk +:+ PyStr.LF +:+ PyStr.LF).
    by rewrite !app_assoc_string.
Qed.

End ContextFacts.

(** [X13] The context handed to the model is every retrieved chunk's text
    followed by two line feeds, in retrieval order and in full: the
    context of [chunks1 ++ chunks2] is the context of [chunks1] followed
    by that of [chunks2], and its length is the chunks' lengths plus two
    per chunk.  Nothing is cut off, and no metadata goes in. *)
Theorem X13_context_is_all_chunk_texts (chunks1 chunks2 : list Document) :
  Pipeline.retrieved_context (chunks1 ++ chunks2)
  = Pipeline.retrieved_context chunks1 +:+ Pipeline.retrieved_context chunks2
  ∧ String.length (Pipeline.retrieved_context chunks1)
    = sum_list ((λ chunk, String.length (page_content chunk) + 2)%nat <$> chunks1).
Proof.
  split.
  - unfold Pipeline.retrieved_context at 1. rewrite fold_left_app.
    fold (Pipeline.retrieved_context chunks1). apply retrieved_context_acc.
  - induction chunks1 as [|chunk chunks1 IH]; [done|].
    unfold Pipeline.retrieved_context. cbn [fold_left].
    rewrite retrieved_context_acc, !length_app_string, IH.
    change (sum_list ((λ chunk, String.length (page_content chunk) + 2)%nat
                      <$> chunk :: chunks1))
      with (String.length (page_content chunk) + 2
            + sum_list ((λ chunk, String.length (page_content chunk) + 2)%nat
                        <$> chunks1))%nat.
    change (String.length "") with 0%nat. change (String.length PyStr.LF) with 1%nat.
    lia.
Qed.

(** ** The formatter and the RAGChecker file *)

Section FormatterMore.

Import Formatter.

Lemma contexts_of_acc (chunks : list string) :
  ∀ acc, fold_left (λ acc chunk, acc ++ [{| ctx_text := chunk |}]) chunks acc
         = acc ++ ((λ chunk, {| ctx_text := chunk |}) <$> chunks).
Proof.
  induction chunks as [|chunk chunks IH]; intros acc.
  - simpl. by rewrite app_nil_r.
  - cbn [fold_left]. rewrite IH, fmap_cons. by rewrite <- app_assoc.
Qed.

Lemma contexts_of_fmap (chunks : list string) :
  contexts_of chunks = (λ chunk, {| ctx_text := chunk |}) <$> chunks.
Proof. unfold contexts_of. by rewrite contexts_of_acc. Qed.

Lemma contexts_of_inj (chunks1 chunks2 : list string) :
  contexts_of chunks1 = contexts_of chunks2 → chunks1 = chunks2.
Proof.
  rewrite !contexts_of_fmap. revert chunks2.
  induction chunks1 as [|c1 chunks1 IH]; intros [|c2 chunks2]; try done.
  rewrite !fmap_cons. intros [= -> Heq]. f_equal. by apply IH.
Qed.

Lemma omap_serializable (results : list (ResultRecord Document)) :
  omap (λ res, formatted_res res <$> head (ground_truth_answer res))
    (Checkpoint.serializable_results results)
  = omap (λ res, Notions.checker_entry res <$> head (ground_truth_answer res)) results.
Proof.
  induction results as [|res results IH]; [done|].
  unfold Checkpoint.serializable_results in *. rewrite fmap_cons.
  assert (Hentry : ∀ first,
    formatted_res (Checkpoint.serializable_res res) first
    = Notions.checker_entry res first).
  { intros first. unfold formatted_res, Notions.checker_entry.
    cbn [Checkpoint.serializable_res query_id query generated_answer
         retrieved_chunks].
    by rewrite contexts_of_fmap, <- list_fmap_compose. }
  csimpl. rewrite IH.
  destruct (ground_truth_answer res) as [|first others]; [done|].
  csimpl. by rewrite Hentry.
Qed.

End FormatterMore.

(** [X14] Apart from the further ground-truth answers, the formatter
    loses nothing: two records with the same formatted entry have the same
    [query_id], query, generated answer and retrieved chunk texts, and the
    same first ground-truth answer. *)
Theorem X14_formatter_loses_only_further_answers
    (res1 res2 : ResultRecord string) (first1 first2 : string) :
  Formatter.formatted_res res1 first1 = Formatter.formatted_res res2 first2 →
  query_id res1 = query_id res2
  ∧ query res1 = query res2
  ∧ first1 = first2
  ∧ generated_answer res1 = generated_answer res2
  ∧ retrieved_chunks res1 = retrieved_chunks res2.
Proof.
  unfold Formatter.formatted_res. intros [= Hid Hq Hfirst Hanswer Hcontext].
  split; [by apply (inj pretty)|].
  split; [done|]. split; [done|]. split; [done|].
  by apply contexts_of_inj.
Qed.

Lemma X14_formatter_loses_only_further_answers_witness :
  Formatter.formatted_res Scenario.record_A_B "A"
  = Formatter.formatted_res Scenario.record_A_B "A"
  ∧ (query_id Scenario.record_A_B = query_id Scenario.record_A_B
     ∧ query Scenario.record_A_B = query Scenario.record_A_B
     ∧ "A" = "A"
     ∧ generated_answer Scenario.record_A_B = generated_answer Scenario.record_A_B
     ∧ retrieved_chunks Scenario.record_A_B = retrieved_chunks Scenario.record_A_B).
Proof.
  split; [reflexivity|].
  apply (X14_formatter_loses_only_further_answers
           Scenario.record_A_B Scenario.record_A_B "A" "A").
  reflexivity.
Defined.

(** [X15] From the retrieval loop to RAGChecker's input: after the
    checkpoint has been written and read back, the formatter gives, for
    every result with a ground-truth answer and in the loop's order, an
    entry with the result's identifier in decimal, its query, its first
    ground-truth answer, the model's answer as [response] and the texts of
    the retrieved chunks as [retrieved_context].  The chunks' metadata is
    not in it. *)
Theorem X15_results_to_ragchecker_input (results : list (ResultRecord Document))
    (fs : FileSystem) :
  ∃ json_results,
    Checkpoint.json_results (Checkpoint.save_results results fs) = Some json_results
    ∧ Formatter.ragchecker_results json_results
      = omap (λ res, Notions.checker_entry res <$> head (ground_truth_answer res))
          results.
Proof.
  exists (Checkpoint.serializable_results results).
  split; [apply json_results_save|].
  rewrite ragchecker_results_omap. apply omap_serializable.
Qed.

Section CheckerFileFacts.

Import CheckerFile.



End CheckerFileFacts.


(** ** The RAGAs loop *)

Section RagasMore.

Import Ragas.

Variable World : Type.
Variable single_turn_ascore : scorer → SingleTurnSample → World → float * World.

Lemma eval_loop_empty_answers (rs : list (ResultRecord string)) :
  Exists (λ res, ground_truth_answer res = []) rs →
  ∀ totals w, eval_loop World single_turn_ascore rs totals w = None.
Proof.
  induction 1 as [res rs Hres|res rs _ IH]; intros totals w;
    cbn [eval_loop]; unfold sample_of.
  - by rewrite Hres.
  - destruct (ground_truth_answer res !! 0%nat) as [first|]; [|done]. csimpl.
    destruct (single_turn_ascore Faithfulness _ w) as [f w1].
    destruct (iadd "faithfulness" f totals) as [totals1|]; [|done]. csimpl.
    destruct (single_turn_ascore ResponseRelevancy _ w1) as [a w2].
    destruct (iadd "answer_relevance" a totals1) as [totals2|]; [|done]. csimpl.
    destruct (single_turn_ascore LLMContextRecall _ w2) as [c w3].
    destruct (iadd "context_relevance" c totals2) as [totals3|]; [|done]. csimpl.
    apply IH.
Qed.

Lemma metrics_three_totals (rs : list (ResultRecord string)) (w : World) :
  Forall (λ res, ground_truth_answer res ≠ []) rs →
  ∃ f a c w', metrics World single_turn_ascore rs w
              = Some ((λ total, (total / 100)%float) <$> metrics_of f a c, w').
Proof.
  intros Hall.
  destruct (instance_scores_total World single_turn_ascore rs w Hall)
    as (scores & Hscores & _).
  destruct (eval_loop_totals World single_turn_ascore rs
              0%float 0%float 0%float w scores Hscores) as [w' Hloop].
  do 3 eexists. exists w'. unfold metrics.
  change initial_metrics with (metrics_of 0 0 0). by rewrite Hloop.
Qed.

Lemma answers_all_or_some_empty (rs : list (ResultRecord string)) :
  Forall (λ res, ground_truth_answer res ≠ []) rs
  ∨ Exists (λ res, ground_truth_answer res = []) rs.
Proof.
  induction rs as [|res rs [IH|IH]].
  - left. constructor.
  - destruct (ground_truth_answer res) as [|first others] eqn:Hres.
    + right. by constructor.
    + left. constructor; [by rewrite Hres|done].
  - right. by constructor 2.
Qed.

Lemma formatted_count (rs : list (ResultRecord string)) :
  (length (Formatter.ragchecker_results rs) ≤ length rs)%nat
  ∧ (Exists (λ res, ground_truth_answer res = []) rs
     ↔ (length (Formatter.ragchecker_results rs) < length rs)%nat).
Proof.
  induction rs as [|res rs [IHle IHlt]].
  - split; [done|]. split; [by intros H; inversion H|simpl; lia].
  - rewrite ragchecker_results_cons, length_app. unfold Formatter.formatted.
    rewrite Exists_cons.
    destruct (ground_truth_answer res) as [|first others]; cbn [length].
    + split; [lia|]. split; [lia|]. by left.
    + split; [lia|]. rewrite IHlt. split; [intros [?|?]; [done|lia]|].
      intros Hlt. right. lia.
Qed.

End RagasMore.

(** [X17] The RAGAs cell fails exactly when some record of the checkpoint
    has an empty ground-truth list, whatever the scorers answer and however
    many records precede it; these are exactly the runs in which the
    RAGChecker formatter produced fewer entries than there are records.  So
    a test without snippets, which the formatter passes over silently,
    stops the RAGAs evaluation with no metrics at all. *)
Theorem X17_ragas_fails_iff_formatter_dropped (World : Type)
    (single_turn_ascore : Ragas.scorer → Ragas.SingleTurnSample → World → float * World)
    (json_results : list (ResultRecord string)) (w : World) :
  (Ragas.metrics World single_turn_ascore json_results w = None
   ↔ Exists (λ res, ground_truth_answer res = []) json_results)
  ∧ (Ragas.metrics World single_turn_ascore json_results w = None
     ↔ (length (Formatter.ragchecker_results json_results)
        < length json_results)%nat).
Proof.
  assert (Hnone : Ragas.metrics World single_turn_ascore json_results w = None
                  ↔ Exists (λ res, ground_truth_answer res = []) json_results).
  { split.
    - intros Hfail.
      destruct (answers_all_or_some_empty json_results) as [Hall|Hempty]; [|done].
      destruct (metrics_three_totals World single_turn_ascore json_results w Hall)
        as (f & a & c & w' & Hsome).
      by rewrite Hsome in Hfail.
    - intros Hempty. unfold Ragas.metrics.
      by rewrite (eval_loop_empty_answers World single_turn_ascore _ Hempty). }
  split; [exact Hnone|].
  rewrite Hnone. apply formatted_count.
Qed.

(** [X18] When the RAGAs cell succeeds, its dictionary has the three keys
    [faithfulness], [answer_relevance] and [context_relevance] and no
    other, and every record had a ground-truth answer. *)
Theorem X18_ragas_metrics_keys (World : Type)
    (single_turn_ascore : Ragas.scorer → Ragas.SingleTurnSample → World → float * World)
    (json_results : list (ResultRecord string)) (w w' : World)
    (metrics : gmap string float) :
  Ragas.metrics World single_turn_ascore json_results w = Some (metrics, w') →
  dom metrics = ({[ "faithfulness"; "answer_relevance"; "context_relevance" ]}
                 : gset string)
  ∧ Forall (λ res, ground_truth_answer res ≠ []) json_results.
Proof.
  intros Hsome.
  destruct (answers_all_or_some_empty json_results) as [Hall|Hempty].
  - split; [|done].
    destruct (metrics_three_totals World single_turn_ascore json_results w Hall)
      as (f & a & c & w'' & Heq).
    rewrite Heq in Hsome. injection Hsome as <- _.
    rewrite dom_fmap_L. unfold Ragas.metrics_of.
    rewrite !dom_insert_L, dom_singleton_L. set_solver.
  - unfold Ragas.metrics in Hsome.
    by rewrite (eval_loop_empty_answers World single_turn_ascore _ Hempty) in Hsome.
Qed.

Lemma X18_ragas_metrics_keys_witness :
  Ragas.metrics unit Ragas.constant_scorer [Scenario.record_A_B] ()
  = Some ((λ total, (total / 100)%float) <$> Ragas.metrics_of 1 1 1, ())
  ∧ (dom ((λ total, (total / 100)%float) <$> Ragas.metrics_of 1 1 1)
     = ({[ "faithfulness"; "answer_relevance"; "context_relevance" ]} : gset string)
     ∧ Forall (λ res, ground_truth_answer res ≠ []) [Scenario.record_A_B]).
Proof.
  assert (Ragas.metrics unit Ragas.constant_scorer [Scenario.record_A_B] ()
          = Some ((λ total, (total / 100)%float) <$> Ragas.metrics_of 1 1 1, ()))
    as Hrun by (vm_compute; reflexivity).
  split; [exact Hrun|].
  exact (X18_ragas_metrics_keys unit Ragas.constant_scorer
           [Scenario.record_A_B] () () _ Hrun).
Defined.

(** ** The metrics file *)

Section OutputMore.

Import Output.

Lemma write_ragas_content (rendering : string) (files : gmap string string) :
  write_ragas rendering files !! framework_results_path
  = Some (default "" (files !! framework_results_path) +:+ ragas_block rendering).
Proof. unfold write_ragas, write_file. apply lookup_insert_eq. Qed.

Lemma write_ragas_elsewhere (rendering path : string) (files : gmap string string) :
  path ≠ framework_results_path →
  write_ragas rendering files !! path = files !! path.
Proof. intros Hpath. unfold write_ragas, write_file. by rewrite lookup_insert_ne. Qed.

End OutputMore.

(** [X19] Running the RAGAs write again does not replace what it wrote
    before: after one run for each of a list of renderings the metrics file
    holds what it held at the start (nothing, when it did not exist)
    followed by one RAGAs block per run, in the order of the runs; the file
    exists after the first run; and no other file is touched. *)
Theorem X19_ragas_reruns_accumulate (renderings : list string)
    (files : gmap string string) :
  default "" (Notions.ragas_runs renderings files !! Output.framework_results_path)
  = default "" (files !! Output.framework_results_path)
    +:+ Notions.ragas_blocks renderings
  ∧ (renderings = []
     ∨ is_Some (Notions.ragas_runs renderings files !! Output.framework_results_path))
  ∧ ∀ path, path ≠ Output.framework_results_path →
      Notions.ragas_runs renderings files !! path = files !! path.
Proof.
  unfold Notions.ragas_runs. revert files.
  induction renderings as [|rendering renderings IH]; intros files.
  - cbn [fold_left Notions.ragas_blocks]. rewrite app_empty_r.
    split; [done|]. split; [by left|done].
  - cbn [fold_left Notions.ragas_blocks].
    destruct (IH (Output.write_ragas rendering files)) as (Hcontent & Hexists & Hother).
    split; [|split].
    + rewrite Hcontent, write_ragas_content. cbn [default].
      by rewrite app_assoc_string.
    + right. destruct Hexists as [->|Hsome]; [|done].
      cbn [fold_left]. rewrite write_ragas_content. eauto.
    + intros path Hpath. rewrite Hother by done.
      by apply write_ragas_elsewhere.
Qed.
